(** * Dismissible widgets of the component library: CAlert and CToast

    A shallow embedding of the [CAlert] and [CToast] function components.
    Each component is modelled by the
    state its hooks hold ([useState], [useRef]), by the handlers and effects it
    installs, and by the element it returns.  The two host facilities the
    components lean on are modelled next to them: the [Transition] component of
    react-transition-group (status, pending transition-end timeout, lifecycle
    callbacks) and the window timers ([setTimeout] / [clearTimeout]).

    Conventions.
    - A prop that may be omitted is an [option]; [None] is JavaScript's
      [undefined], and the default of the destructuring pattern is applied by
      the [*_of] accessors.
    - [number] props are integers ([Z]); on integers the only falsy number is 0.
    - Time is an integer count of milliseconds.
    - One [event] is processed to quiescence: the render it causes, the commit
      (where [Transition] reacts to its new props), the effects whose
      dependencies changed and the re-render a state update inside an effect
      causes, in React's order. *)

From stdpp Require Import base strings gmap list.
From Stdlib Require Import ZArith Lia.

Local Open Scope Z_scope.

(** ** Values carried by props and elements *)

(** A function passed in by the caller, known by its identity only. *)
Definition callback := nat.

(** The closures a component installs on its own root element. *)
Inductive handler :=
  | ClearTimeout   (* () => clearTimeout(timeout.current) *)
  | AutohideRef.   (* () => _autohide : evaluates to the function, calls nothing *)

Inductive value :=
  | VStr (s : string)
  | VNum (n : Z)
  | VBool (b : bool)
  | VFun (f : callback)
  | VHandler (h : handler)
  | VRef (r : nat).

(** What a callback is called with. *)
Inductive arg :=
  | ANull
  | ANum (i : Z)
  | ANode.   (* the DOM node [Transition] hands to its lifecycle callbacks *)

Inductive call := Call (f : callback) (a : arg).

Inductive node :=
  | Text (s : string)
  | CCloseButton.   (* <CCloseButton onClick={() => setVisible(false)} /> *)

Record element := {
  tag : string;
  eprops : gmap string value;
  ekey : option value;
  eref : option value;
  echildren : list node
}.

(** [{...m, k: o}] : a later key overrides what was spread before it; an
    explicit [undefined] leaves the key without a value. *)
Definition assign (k : string) (o : option value) (m : gmap string value)
  : gmap string value :=
  match o with
  | Some v => <[k:=v]> m
  | None => delete k m
  end.

(** [React.createElement]: [key] and [ref] are taken out of the config, the
    rest become the element's props. *)
Definition createElement (t : string) (config : gmap string value)
  (cs : list node) : element :=
  {| tag := t;
     eprops := delete "ref" (delete "key" config);
     ekey := config !! "key";
     eref := config !! "ref";
     echildren := cs |}.

(** The element [e] with the prop [k] set to [v], everything else as it is. *)
Definition with_eprop (k : string) (v : value) (e : element) : element :=
  {| tag := tag e; eprops := <[k:=v]> (eprops e); ekey := ekey e;
     eref := eref e; echildren := echildren e |}.

(** ** classnames *)

Module ClassNames.

Inductive cn_arg :=
  | Str (s : string)                    (* a string argument *)
  | Obj (kvs : list (string * bool))    (* { name: condition, ... } *)
  | Falsy.                              (* undefined, null, false *)

Definition truthy_str (s : string) : bool :=
  match s with EmptyString => false | _ => true end.

Definition of_opt (o : option string) : cn_arg :=
  match o with Some s => Str s | None => Falsy end.

Definition classes_of (a : cn_arg) : list string :=
  match a with
  | Str s => if truthy_str s then [s] else []
  | Obj kvs => map fst (filter (fun kv => snd kv = true) kvs)
  | Falsy => []
  end.

Fixpoint join (l : list string) : string :=
  match l with
  | [] => ""
  | [s] => s
  | s :: l' => s +:+ " " +:+ join l'
  end.

Definition classNames (args : list cn_arg) : string :=
  join (concat (map classes_of args)).

End ClassNames.

(** ** react-transition-group: Transition *)

Module Transition.

Inductive status := UNMOUNTED | EXITED | ENTERING | ENTERED | EXITING.

#[global] Instance status_eq_dec : EqDecision status.
Proof. solve_decision. Defined.

(** The props the two widgets pass; [appear], [enter] and [exit] keep their
    defaults (false, true, true). *)
Record props := {
  in_ : bool;
  mountOnEnter : bool;
  unmountOnExit : bool;
  timeout : Z
}.

(** [nextCallback]: the deadline of the pending transition-end timeout, when
    one is armed. *)
Record state := {
  st : status;
  nextCallback : option Z
}.

Inductive lifecycle := onEnter | onEntering | onEntered | onExit | onExiting | onExited.

Definition active (s : status) : bool :=
  match s with ENTERING | ENTERED => true | _ => false end.

(** constructor *)
Definition initial (p : props) : state :=
  {| st := if in_ p then ENTERED
           else if unmountOnExit p || mountOnEnter p then UNMOUNTED else EXITED;
     nextCallback := None |}.

(** updateStatus(mounting = false, nextStatus) *)
Definition updateStatus (now : Z) (p : props) (s : state)
  (nextStatus : option status) : state * list lifecycle :=
  match nextStatus with
  | Some ENTERING =>
      (* cancelNextCallback(); performEnter() *)
      ({| st := ENTERING; nextCallback := Some (now + timeout p) |},
       [onEnter; onEntering])
  | Some _ =>
      (* cancelNextCallback(); performExit() *)
      ({| st := EXITING; nextCallback := Some (now + timeout p) |},
       [onExit; onExiting])
  | None =>
      if unmountOnExit p && bool_decide (st s = EXITED)
      then ({| st := UNMOUNTED; nextCallback := nextCallback s |}, [])
      else (s, [])
  end.

(** componentDidMount *)
Definition mount (now : Z) (p : props) : state :=
  fst (updateStatus now p (initial p) None).

(** static getDerivedStateFromProps: the state the render with the props [p]
    is committed with.  An unmounted component that is to enter is rendered
    with status EXITED first. *)
Definition getDerivedStateFromProps (p : props) (s : state) : state :=
  if in_ p && bool_decide (st s = UNMOUNTED)
  then {| st := EXITED; nextCallback := nextCallback s |} else s.

(** componentDidUpdate, for a render that handed the component a new props
    object and was committed with the state [s0]: the lifecycle callbacks it
    returns are called while that render is on screen, and the state it
    returns is committed next. *)
Definition componentDidUpdate (now : Z) (p : props) (s0 : state)
  : state * list lifecycle :=
  let nextStatus :=
    if in_ p
    then (if active (st s0) then None else Some ENTERING)
    else (if active (st s0) then Some EXITING else None) in
  updateStatus now p s0 nextStatus.

(** A render with new props, from the first commit to the state the component
    settles in: the commit of [getDerivedStateFromProps], then that of
    [componentDidUpdate]. *)
Definition update (now : Z) (p : props) (s : state) : state * list lifecycle :=
  componentDidUpdate now p (getDerivedStateFromProps p s).

(** The transition-end timeout fires: the status settles, the matching
    callback runs, and the componentDidUpdate of that state change unmounts
    an exited component when [unmountOnExit] is set. *)
Definition finish (now : Z) (p : props) (s : state) : option (state * list lifecycle) :=
  match nextCallback s with
  | Some d =>
      if d <=? now then
        match st s with
        | ENTERING => Some ({| st := ENTERED; nextCallback := None |}, [onEntered])
        | EXITING =>
            Some (fst (updateStatus now p {| st := EXITED; nextCallback := None |} None),
                  [onExited])
        | _ => None
        end
      else None
  | None => None
  end.

(** componentWillUnmount: cancelNextCallback() *)
Definition unmount (s : state) : state :=
  {| st := st s; nextCallback := None |}.

End Transition.

(** ** CAlert *)

Module Alert.

Record CAlertProps := {
  children : list node;
  className : option string;
  color : option string;
  dismissible : option bool;
  onClose : option callback;
  variant : option string;
  visible : option bool;
  attrs : gmap string value   (* every other attribute the caller supplied *)
}.

(** Defaults of the destructuring pattern: [color = 'primary'],
    [visible = true]; an omitted [dismissible] is falsy. *)
Definition color_of (p : CAlertProps) : string := default "primary" (color p).
Definition visible_of (p : CAlertProps) : bool := default true (visible p).
Definition dismissible_of (p : CAlertProps) : bool := default false (dismissible p).

Definition destructured : list string :=
  ["children"; "className"; "color"; "dismissible"; "variant"; "visible"; "onClose"].

(** [...rest]: the props object without the names destructured before it. *)
Definition rest (p : CAlertProps) : gmap string value :=
  foldr delete (attrs p) destructured.

(** The props [p] with the [visible] prop given as [b]. *)
Definition with_visible (b : bool) (p : CAlertProps) : CAlertProps :=
  {| children := children p; className := className p; color := color p;
     dismissible := dismissible p; onClose := onClose p; variant := variant p;
     visible := Some b; attrs := attrs p |}.

(** The props [p] with one more attribute. *)
Definition with_attr (k : string) (v : value) (p : CAlertProps) : CAlertProps :=
  {| children := children p; className := className p; color := color p;
     dismissible := dismissible p; onClose := onClose p; variant := variant p;
     visible := visible p; attrs := <[k:=v]> (attrs p) |}.

Record state := {
  props : CAlertProps;
  _visible : bool;                  (* useState(visible) *)
  transition : Transition.state;
  log : list call;                  (* calls made to the caller's callbacks *)
  now : Z;
  mounted : bool
}.

Definition set_props (p : CAlertProps) (s : state) : state :=
  {| props := p; _visible := _visible s; transition := transition s;
     log := log s; now := now s; mounted := mounted s |}.

(** <Transition in={_visible} mountOnEnter onExit={onClose} timeout={150} unmountOnExit> *)
Definition transition_props (s : state) : Transition.props :=
  {| Transition.in_ := _visible s;
     Transition.mountOnEnter := true;
     Transition.unmountOnExit := true;
     Transition.timeout := 150 |}.

(** Which of the caller's callbacks a lifecycle callback of [Transition]
    reaches: only [onExit], which is [onClose] itself and so receives the
    node. *)
Definition on_lifecycle (p : CAlertProps) (c : Transition.lifecycle) : list call :=
  match c with
  | Transition.onExit =>
      match onClose p with Some f => [Call f ANode] | None => [] end
  | _ => []
  end.

(** The commit of a render: [Transition] sees its new props. *)
Definition commit (s : state) : state :=
  let '(t, cs) := Transition.update (now s) (transition_props s) (transition s) in
  {| props := props s; _visible := _visible s; transition := t;
     log := log s ++ concat (map (on_lifecycle (props s)) cs);
     now := now s; mounted := mounted s |}.

(** [setVisible(b)]: a no-op when the state already holds [b] or the component
    is gone, a re-render otherwise. *)
Definition setVisible (b : bool) (s : state) : state :=
  if mounted s then
    if bool_decide (_visible s = b) then s
    else commit {| props := props s; _visible := b; transition := transition s;
                   log := log s; now := now s; mounted := mounted s |}
  else s.

(** First render, commit and effects.  [useEffect(() => setVisible(visible),
    [visible])] runs on mount too, where it writes the value the state was
    initialised with. *)
Definition mount (p : CAlertProps) (t0 : Z) : state :=
  let s0 := {| props := p; _visible := visible_of p;
               transition := Transition.mount t0
                 {| Transition.in_ := visible_of p;
                    Transition.mountOnEnter := true;
                    Transition.unmountOnExit := true;
                    Transition.timeout := 150 |};
               log := []; now := t0; mounted := true |} in
  setVisible (visible_of p) s0.

Definition rendered (s : state) : bool :=
  negb (bool_decide (Transition.st (transition s) = Transition.UNMOUNTED)).

Inductive event :=
  | SetProps (p : CAlertProps)   (* the parent renders the alert with props [p] *)
  | Close                        (* the close button is clicked *)
  | TransitionEnd                (* the transition timeout of [Transition] fires *)
  | Advance (dt : Z)             (* time passes *)
  | Unmount.

Definition step (s : state) (e : event) : option state :=
  match e with
  | SetProps p =>
      if mounted s then
        let s1 := commit (set_props p s) in
        Some (if bool_decide (visible_of p = visible_of (props s)) then s1
              else setVisible (visible_of p) s1)
      else None
  | Close =>
      if mounted s && rendered s && dismissible_of (props s)
      then Some (setVisible false s) else None
  | TransitionEnd =>
      match Transition.finish (now s) (transition_props s) (transition s) with
      | Some (t, cs) =>
          Some {| props := props s; _visible := _visible s; transition := t;
                  log := log s ++ concat (map (on_lifecycle (props s)) cs);
                  now := now s; mounted := mounted s |}
      | None => None
      end
  | Advance dt =>
      if 0 <=? dt
      then Some {| props := props s; _visible := _visible s;
                   transition := transition s; log := log s;
                   now := now s + dt; mounted := mounted s |}
      else None
  | Unmount =>
      if mounted s
      then Some {| props := props s; _visible := _visible s;
                   transition := Transition.unmount (transition s);
                   log := log s; now := now s; mounted := false |}
      else None
  end.

Fixpoint run (s : state) (es : list event) : option state :=
  match es with
  | [] => Some s
  | e :: es' =>
      match step s e with
      | Some s' => run s' es'
      | None => None
      end
  end.

Inductive reachable : state -> Prop :=
  | reach_mount p t0 : reachable (mount p t0)
  | reach_step s e s' : reachable s -> step s e = Some s' -> reachable s'.

Definition getTransitionClass (st : Transition.status) : ClassNames.cn_arg :=
  (* state === 'entered' && 'show' *)
  match st with
  | Transition.ENTERED => ClassNames.Str "show"
  | _ => ClassNames.Falsy
  end.

Definition _className (p : CAlertProps) : string :=
  ClassNames.classNames
    [ ClassNames.Str "alert";
      ClassNames.Str
        (if bool_decide (variant p = Some "solid")
         then "bg-" +:+ color_of p +:+ " text-white"
         else "alert-" +:+ color_of p);
      ClassNames.Obj [("alert-dismissible fade", dismissible_of p)];
      ClassNames.of_opt (className p) ].

(** The element the component returns for the forwarded [ref], or [None]
    while [Transition] keeps its child unmounted. *)
Definition render (p : CAlertProps) (ref : option value) (st : Transition.status)
  : option element :=
  if bool_decide (st = Transition.UNMOUNTED) then None
  else Some (createElement "div"
    (assign "ref" ref
       (rest p ∪
        <["className" := VStr (ClassNames.classNames
                                 [ClassNames.Str (_className p); getTransitionClass st])]>
          {["role" := VStr "alert"]}))
    (children p ++ (if dismissible_of p then [CCloseButton] else []))).

End Alert.

(** ** CToast *)

Module Toast.

Record CToastProps := {
  children : list node;
  animation : option bool;
  autohide : option bool;
  className : option string;
  color : option string;
  delay : option Z;
  index : option Z;
  key : option Z;                   (* what the caller writes; React keeps it *)
  visible : option bool;
  onClose : option callback;
  onShow : option callback;
  attrs : gmap string value   (* every other attribute the caller supplied *)
}.

(** Defaults of the destructuring pattern. *)
Definition animation_of (p : CToastProps) : bool := default true (animation p).
Definition autohide_of (p : CToastProps) : bool := default true (autohide p).
Definition delay_of (p : CToastProps) : Z := default 5000 (delay p).
Definition visible_of (p : CToastProps) : bool := default false (visible p).

Definition destructured : list string :=
  ["children"; "animation"; "autohide"; "className"; "color"; "delay"; "index";
   "key"; "visible"; "onClose"; "onShow"].

(** [...rest] *)
Definition rest (p : CToastProps) : gmap string value :=
  foldr delete (attrs p) destructured.

(** The props [p] with the [visible] prop given as [b]. *)
Definition with_visible (b : bool) (p : CToastProps) : CToastProps :=
  {| children := children p; animation := animation p; autohide := autohide p;
     className := className p; color := color p; delay := delay p;
     index := index p; key := key p; visible := Some b;
     onClose := onClose p; onShow := onShow p; attrs := attrs p |}.

(** The props [p] with one more attribute. *)
Definition with_attr (k : string) (v : value) (p : CToastProps) : CToastProps :=
  {| children := children p; animation := animation p; autohide := autohide p;
     className := className p; color := color p; delay := delay p;
     index := index p; key := key p; visible := visible p;
     onClose := onClose p; onShow := onShow p; attrs := <[k:=v]> (attrs p) |}.

(** [timers] are the window timers this instance has set and that are still
    pending: identifier ↦ (time of the [setTimeout] call, its delay argument). *)
Record state := {
  props : CToastProps;
  _visible : bool;                  (* useState(false) *)
  timeout_current : option nat;     (* timeout.current, useRef<number>() *)
  timers : gmap nat (Z * Z);
  next_id : nat;                    (* the identifier the next setTimeout returns *)
  transition : Transition.state;
  log : list call;                  (* calls made to the caller's callbacks *)
  now : Z;
  mounted : bool
}.

Definition set_props (p : CToastProps) (s : state) : state :=
  {| props := p; _visible := _visible s; timeout_current := timeout_current s;
     timers := timers s; next_id := next_id s; transition := transition s;
     log := log s; now := now s; mounted := mounted s |}.

Definition set_timers (m : gmap nat (Z * Z)) (s : state) : state :=
  {| props := props s; _visible := _visible s; timeout_current := timeout_current s;
     timers := m; next_id := next_id s; transition := transition s;
     log := log s; now := now s; mounted := mounted s |}.

(** [clearTimeout(id)]; an [undefined] or stale identifier clears nothing. *)
Definition clearTimeout (id : option nat) (s : state) : state :=
  match id with
  | Some i => set_timers (delete i (timers s)) s
  | None => s
  end.

(** [timeout.current = window.setTimeout(f, d)] *)
Definition setTimeout (d : Z) (s : state) : state :=
  {| props := props s; _visible := _visible s;
     timeout_current := Some (next_id s);
     timers := <[next_id s := (now s, d)]> (timers s);
     next_id := S (next_id s); transition := transition s;
     log := log s; now := now s; mounted := mounted s |}.

(** A timer set at [t] with delay [d] may fire once that long has passed; the
    window treats a negative delay as none. *)
Definition due (td : Z * Z) (now : Z) : bool := fst td + Z.max 0 (snd td) <=? now.

(** The closure of the render with props [p]. *)
Definition _autohide (p : CToastProps) (s : state) : state :=
  if autohide_of p
  then setTimeout (delay_of p) (clearTimeout (timeout_current s) s)
  else s.

(** <Transition in={_visible} onEnter=.. onExited=.. timeout={250} unmountOnExit> *)
Definition transition_props (s : state) : Transition.props :=
  {| Transition.in_ := _visible s;
     Transition.mountOnEnter := false;
     Transition.unmountOnExit := true;
     Transition.timeout := 250 |}.

(** [index ? index : null] *)
Definition index_arg (p : CToastProps) : arg :=
  match index p with
  | Some i => if i =? 0 then ANull else ANum i
  | None => ANull
  end.

(** onEnter={() => onShow && onShow(index ? index : null)} *)
Definition onEnter (p : CToastProps) : list call :=
  match onShow p with Some f => [Call f (index_arg p)] | None => [] end.

(** onExited={() => onClose && onClose(index ? index : null)} *)
Definition onExited (p : CToastProps) : list call :=
  match onClose p with Some f => [Call f (index_arg p)] | None => [] end.

Definition on_lifecycle (p : CToastProps) (c : Transition.lifecycle) : list call :=
  match c with
  | Transition.onEnter => onEnter p
  | Transition.onExited => onExited p
  | _ => []
  end.

(** The commit of a render: [Transition] sees its new props. *)
Definition commit (s : state) : state :=
  let '(t, cs) := Transition.update (now s) (transition_props s) (transition s) in
  {| props := props s; _visible := _visible s; timeout_current := timeout_current s;
     timers := timers s; next_id := next_id s; transition := t;
     log := log s ++ concat (map (on_lifecycle (props s)) cs);
     now := now s; mounted := mounted s |}.

(** [setVisible(b)]: a no-op when the state already holds [b] or the component
    is gone; otherwise a re-render, whose commit is followed by the effect on
    [[_visible]]. *)
Definition setVisible (b : bool) (s : state) : state :=
  if mounted s then
    if bool_decide (_visible s = b) then s
    else _autohide (props s)
           (commit {| props := props s; _visible := b;
                      timeout_current := timeout_current s; timers := timers s;
                      next_id := next_id s; transition := transition s;
                      log := log s; now := now s; mounted := mounted s |})
  else s.

(** First render, commit and the three effects in source order; the state
    update of the first effect is applied after the last one has run. *)
Definition mount (p : CToastProps) (t0 : Z) : state :=
  let s0 := {| props := p; _visible := false; timeout_current := None;
               timers := ∅; next_id := 0%nat;
               transition := Transition.mount t0
                 {| Transition.in_ := false;
                    Transition.mountOnEnter := false;
                    Transition.unmountOnExit := true;
                    Transition.timeout := 250 |};
               log := []; now := t0; mounted := true |} in
  setVisible (visible_of p) (_autohide p s0).

Definition rendered (s : state) : bool :=
  negb (bool_decide (Transition.st (transition s) = Transition.UNMOUNTED)).

(** A mouseenter on the root element runs the handler the element carries.
    [{...rest}] follows [onMouseEnter] in the JSX, so an [onMouseEnter]
    attribute of the caller replaces the closure of the component; the caller's
    handler is no part of the component and changes nothing of its state. *)
Definition mouseenter (s : state) : state :=
  match rest (props s) !! "onMouseEnter" with
  | Some _ => s
  | None => clearTimeout (timeout_current s) s   (* () => clearTimeout(timeout.current) *)
  end.

(** A mouseleave runs [() => _autohide], which evaluates to the function and
    calls nothing, or the caller's [onMouseLeave] in its place: either way the
    state of the component stays as it is. *)
Definition mouseleave (s : state) : state := s.

Inductive event :=
  | SetProps (p : CToastProps)   (* the parent renders the toast with props [p] *)
  | Close                        (* a child (CToastClose) calls the context's setVisible(false) *)
  | MouseEnter                   (* the mouse enters the root element *)
  | MouseLeave                   (* the mouse leaves the root element *)
  | TimerFire (id : nat)         (* the window runs the callback of timer [id] *)
  | TransitionEnd                (* the transition timeout of [Transition] fires *)
  | Advance (dt : Z)             (* time passes *)
  | Unmount.

Definition step (s : state) (e : event) : option state :=
  match e with
  | SetProps p =>
      if mounted s then
        let s1 := commit (set_props p s) in
        Some (if bool_decide (visible_of p = visible_of (props s)) then s1
              else setVisible (visible_of p) s1)
      else None
  | Close =>
      if mounted s && rendered s then Some (setVisible false s) else None
  | MouseEnter =>
      if mounted s && rendered s then Some (mouseenter s) else None
  | MouseLeave =>
      if mounted s && rendered s then Some (mouseleave s) else None
  | TimerFire id =>
      match timers s !! id with
      | Some td =>
          if due td (now s)
          then Some (setVisible false (set_timers (delete id (timers s)) s))
          else None
      | None => None
      end
  | TransitionEnd =>
      match Transition.finish (now s) (transition_props s) (transition s) with
      | Some (t, cs) =>
          Some {| props := props s; _visible := _visible s;
                  timeout_current := timeout_current s; timers := timers s;
                  next_id := next_id s; transition := t;
                  log := log s ++ concat (map (on_lifecycle (props s)) cs);
                  now := now s; mounted := mounted s |}
      | None => None
      end
  | Advance dt =>
      if 0 <=? dt
      then Some {| props := props s; _visible := _visible s;
                   timeout_current := timeout_current s; timers := timers s;
                   next_id := next_id s; transition := transition s;
                   log := log s; now := now s + dt; mounted := mounted s |}
      else None
  | Unmount =>
      (* cleanup of the effect on []: clearTimeout(timeout.current) *)
      if mounted s
      then let s1 := clearTimeout (timeout_current s) s in
           Some {| props := props s1; _visible := _visible s1;
                   timeout_current := timeout_current s1; timers := timers s1;
                   next_id := next_id s1;
                   transition := Transition.unmount (transition s1);
                   log := log s1; now := now s1; mounted := false |}
      else None
  end.

Fixpoint run (s : state) (es : list event) : option state :=
  match es with
  | [] => Some s
  | e :: es' =>
      match step s e with
      | Some s' => run s' es'
      | None => None
      end
  end.

Inductive reachable : state -> Prop :=
  | reach_mount p t0 : reachable (mount p t0)
  | reach_step s e s' : reachable s -> step s e = Some s' -> reachable s'.

Definition getTransitionClass (st : Transition.status) : string :=
  match st with
  | Transition.ENTERING => "showing"
  | Transition.ENTERED => "show"
  | Transition.EXITING => "showing"
  | _ => "fade"
  end.

Definition truthy_color (p : CToastProps) : bool :=
  match color p with Some c => ClassNames.truthy_str c | None => false end.

Definition _className (p : CToastProps) : string :=
  ClassNames.classNames
    [ ClassNames.Str "toast";
      ClassNames.Obj [ ("fade", animation_of p);
                       ("bg-" +:+ default "undefined" (color p), truthy_color p);
                       ("border-0", truthy_color p) ];
      ClassNames.of_opt (className p) ].

(** The root element the component returns for the forwarded [ref], or [None]
    while [Transition] keeps its child unmounted.  [key={key}] sets no key:
    React takes [key] out of the props before it calls the component, so the
    destructured [key] is undefined whatever the caller wrote. *)
Definition render (p : CToastProps) (ref : option value) (st : Transition.status)
  : option element :=
  if bool_decide (st = Transition.UNMOUNTED) then None
  else Some (createElement "div"
    (assign "ref" ref
       (assign "key" None
          (rest p ∪
           <["className" := VStr (ClassNames.classNames
                                    [ClassNames.Str (_className p);
                                     ClassNames.Str (getTransitionClass st)])]>
           (<["aria-live" := VStr "assertive"]>
           (<["aria-atomic" := VStr "true"]>
           (<["role" := VStr "alert"]>
           (<["onMouseEnter" := VHandler ClearTimeout]>
           {["onMouseLeave" := VHandler AutohideRef]})))))))
    (children p)).

End Toast.

(** ** CFormRange *)

Module FormRange.

(** The prop set declared in [CFormRange.d.ts]. *)
Record CFormRangeProps := {
  className : option string;
  disabled : option bool;
  max : option Z;
  min : option Z;
  readOnly : option bool;
  steps : Z;
  attrs : gmap string value
}.

(** The names of the typed prop set; [onChange] and [value] are held among
    the attributes. *)
Definition typed : list string :=
  ["className"; "disabled"; "max"; "min"; "onChange"; "readOnly"; "steps"; "value"].

(** The props [p] with one more attribute. *)
Definition with_attr (k : string) (v : value) (p : CFormRangeProps) : CFormRangeProps :=
  {| className := className p; disabled := disabled p; max := max p; min := min p;
     readOnly := readOnly p; steps := steps p; attrs := <[k:=v]> (attrs p) |}.

(** Modelled from the spec: the body of [CFormRange] (the declaration file
    gives its type only).  Numeric props "are passed through uninterpreted to
    the underlying markup", and a widget "spreads unrecognized attributes onto"
    its root element, where each "appears verbatim": the input carries each
    numeric prop with the value it was given, and an attribute outside the
    typed prop set with the value the caller gave it, [type] included. *)
Definition CFormRange (p : CFormRangeProps) (ref : option value) : element :=
  createElement "input"
    (assign "ref" ref
       (assign "steps" (Some (VNum (steps p)))
       (assign "max" (VNum <$> max p)
       (assign "min" (VNum <$> min p)
       (assign "disabled" (VBool <$> disabled p)
       (assign "readOnly" (VBool <$> readOnly p)
       (<["className" := VStr (ClassNames.classNames
                                 [ClassNames.Str "form-range";
                                  ClassNames.of_opt (className p)])]>
          (attrs p ∪ {["type" := VStr "range"]}))))))))
    [].

End FormRange.

(** ** Widgets of which the declaration only is present *)

Module Declared.

(** A widget as its declaration file gives it: the names of the props its
    interface declares, and whether the component is a
    [ForwardRefExoticComponent]. *)
Record declaration := { typed : list string; forwardsRef : bool }.

(** CButton.d.ts *)
Definition CButton : declaration :=
  {| typed := ["active"; "className"; "color"; "component"; "disabled"; "href";
               "role"; "shape"; "size"; "type"; "variant"];
     forwardsRef := true |}.

(** CDropdownToggle.d.ts: [Omit<CButtonProps, 'type'>] and three props more;
    the component is declared as a plain [FC]. *)
Definition CDropdownToggle : declaration :=
  {| typed := ["active"; "className"; "color"; "component"; "disabled"; "href";
               "role"; "shape"; "size"; "variant"; "caret"; "split"; "trigger"];
     forwardsRef := false |}.

(** CListGroupItem.d.ts *)
Definition CListGroupItem : declaration :=
  {| typed := ["active"; "className"; "color"; "disabled"; "component"];
     forwardsRef := true |}.

(** CFormCheck *)
Definition CFormCheck : declaration :=
  {| typed := ["button"; "className"; "hitArea"; "id"; "indeterminate"; "inline";
               "invalid"; "label"; "type"; "valid"];
     forwardsRef := true |}.

(** CTableHeaderCell *)
Definition CTableHeaderCell : declaration :=
  {| typed := ["className"; "color"]; forwardsRef := true |}.

Definition widgets : list declaration :=
  [CButton; CDropdownToggle; CListGroupItem; CFormCheck; CTableHeaderCell].

(** Modelled from the spec: the names a body takes out of the props object,
    which are the recognized ones: the typed props and, as in the two bodies
    that are present, the children. *)
Definition destructured (d : declaration) : list string := "children" :: typed d.

(** The values destructured, in that order; [None] for a prop left out. *)
Definition taken (d : declaration) (props : gmap string value) : list (option value) :=
  (fun n => props !! n) <$> destructured d.

(** [...rest] *)
Definition rest (d : declaration) (props : gmap string value) : gmap string value :=
  foldr delete props (destructured d).

(** Modelled from the spec: what a body makes of the values it has
    destructured, that is, the tag of the root element, the props it gives the
    root itself and the root's children.  The declaration files say nothing of
    the three, and neither does the spec, so a property of [render] is stated
    for every [body]. *)
Record body := {
  root : list (option value) -> string;
  own : list (option value) -> gmap string value;
  content : list (option value) -> list node
}.

(** Modelled from the spec: the body of a widget whose declaration only is
    present.  "Each widget forwards a reference handle to its root rendered
    element and spreads unrecognized attributes onto that element", where each
    "appears verbatim": the root carries the forwarded [ref] (none when the
    component forwards no ref) and the rest of the props object, spread over
    what the body [b] makes of the typed props. *)
Definition render (d : declaration) (b : body) (props : gmap string value)
  (ref : option value) : element :=
  let t := taken d props in
  createElement (root b t)
    (assign "ref" (if forwardsRef d then ref else None) (rest d props ∪ own b t))
    (content b t).

End Declared.

(** * Vocabulary of the properties *)

(** ** Invariants *)

(** The status agrees with the [in] prop of the last commit. *)
Definition follows (i : bool) (s : Transition.state) : Prop :=
  match Transition.st s with
  | Transition.ENTERING | Transition.ENTERED => i = true
  | Transition.EXITING | Transition.UNMOUNTED => i = false
  | Transition.EXITED => False
  end.

(** The status of [Transition] agrees with the local visibility state. *)
Definition toast_consistent (s : Toast.state) : Prop :=
  follows (Toast._visible s) (Toast.transition s).

(** Every pending timer of the instance is the one [timeout.current] names. *)
Definition toast_single_timer (s : Toast.state) : Prop :=
  forall id, is_Some (Toast.timers s !! id) -> Toast.timeout_current s = Some id.

Definition alert_consistent (s : Alert.state) : Prop :=
  follows (Alert._visible s) (Alert.transition s).

(** The local state is never true while the prop is false: only a prop write
    makes it true. *)
Definition toast_tracks_prop (s : Toast.state) : Prop :=
  Toast._visible s = true -> Toast.visible_of (Toast.props s) = true.

Definition alert_tracks_prop (s : Alert.state) : Prop :=
  Alert._visible s = true -> Alert.visible_of (Alert.props s) = true.

(** ** Close actions *)

(** The ways a visible toast is asked to close: a child's close button (the
    context's setter), the auto-hide timer, the parent's [visible] prop going
    from true to false. *)
Inductive toast_close_action (s : Toast.state) : Toast.event -> Prop :=
  | toast_close_click : toast_close_action s Toast.Close
  | toast_close_timer id td :
      Toast.timers s !! id = Some td -> Toast.due td (Toast.now s) = true ->
      toast_close_action s (Toast.TimerFire id)
  | toast_close_prop :
      Toast.visible_of (Toast.props s) = true ->
      toast_close_action s
        (Toast.SetProps (Toast.with_visible false (Toast.props s))).

Inductive alert_close_action (s : Alert.state) : Alert.event -> Prop :=
  | alert_close_click :
      Alert.dismissible_of (Alert.props s) = true ->
      alert_close_action s Alert.Close
  | alert_close_prop :
      Alert.visible_of (Alert.props s) = true ->
      alert_close_action s
        (Alert.SetProps (Alert.with_visible false (Alert.props s))).

(** The reading of "onClose is invoked exactly once, on transition
    completion" for an alert in state [s]: a close action calls nothing yet,
    and the end of the exit transition adds the one call. *)
Definition alert_closes_on_completion (s : Alert.state) : Prop :=
  forall e f,
    Alert.onClose (Alert.props s) = Some f -> alert_close_action s e ->
    exists s1 s2 a,
      Alert.step s e = Some s1
      /\ Alert.log s1 = Alert.log s
      /\ Alert.run s1 [Alert.Advance 150; Alert.TransitionEnd] = Some s2
      /\ Alert.log s2 = Alert.log s ++ [Call f a].

(** The reading of "onShow is invoked once the enter transition completes, not
    at its start" for a hidden toast in state [s]. *)
Definition toast_shows_on_completion (s : Toast.state) : Prop :=
  forall f,
    Toast.onShow (Toast.props s) = Some f ->
    exists s1 s2 a,
      Toast.step s (Toast.SetProps (Toast.with_visible true (Toast.props s))) = Some s1
      /\ Toast.log s1 = Toast.log s
      /\ Toast.run s1 [Toast.Advance 250; Toast.TransitionEnd] = Some s2
      /\ Toast.log s2 = Toast.log s ++ [Call f a].

(** ** The auto-hide timer *)

(** The props keep [autohide = true] and [delay = 5000]. *)
Definition toast_kept (p : Toast.CToastProps) : Prop :=
  Toast.autohide_of p = true /\ Toast.delay_of p = 5000.

Definition toast_keeps (e : Toast.event) : Prop :=
  match e with
  | Toast.SetProps p => toast_kept p
  | _ => True
  end.

(** States in which the toast has just become visible: right after a mount
    with [visible] set, or right after a step that turned the local state from
    false to true. *)
Inductive toast_just_shown : Toast.state -> Prop :=
  | shown_on_mount p t0 :
      Toast._visible (Toast.mount p t0) = true ->
      toast_just_shown (Toast.mount p t0)
  | shown_by_step s0 e s1 :
      Toast.reachable s0 -> Toast._visible s0 = false ->
      Toast.step s0 e = Some s1 -> Toast._visible s1 = true ->
      toast_just_shown s1.

(** While the toast is visible, every pending timer was set at [t0] or later,
    with delay 5000. *)
Definition toast_armed_since (t0 : Z) (s : Toast.state) : Prop :=
  Toast._visible s = true ->
  forall id td, Toast.timers s !! id = Some td -> t0 <= fst td /\ snd td = 5000.

(** The event leaves the [visible] prop at [v]. *)
Definition toast_keeps_visible (v : bool) (e : Toast.event) : Prop :=
  match e with
  | Toast.SetProps p => Toast.visible_of p = v
  | _ => True
  end.

(** While the toast is visible no timer is pending. *)
Definition toast_disarmed (s : Toast.state) : Prop :=
  Toast._visible s = true -> Toast.timers s = ∅.

(** The reading of "the timer is cancelled on mouse interaction" for a toast
    in state [s] with [autohide = true] and [delay = 5000]: after a mouseenter
    no timer is pending. *)
Definition toast_mouseenter_cancels (s : Toast.state) : Prop :=
  toast_kept (Toast.props s) ->
  forall s', Toast.step s Toast.MouseEnter = Some s' -> Toast.timers s' = ∅.

(** The reading of "after any mouse-enter the toast never auto-hides again
    until the visibility prop changes" for a visible toast in state [s] with
    [autohide = true]: along any run after the mouseenter whose renders keep
    the [visible] prop, a timer that fires finds the toast hidden already. *)
Definition toast_mouseenter_ends_autohide (s : Toast.state) : Prop :=
  Toast._visible s = true -> Toast.autohide_of (Toast.props s) = true ->
  forall s1 es s2 id s3,
    Toast.step s Toast.MouseEnter = Some s1 ->
    Forall (toast_keeps_visible (Toast.visible_of (Toast.props s))) es ->
    Toast.run s1 es = Some s2 ->
    Toast.step s2 (Toast.TimerFire id) = Some s3 ->
    Toast._visible s2 = false.

(** ** Sample props *)

Definition toast_demo : Toast.CToastProps :=
  {| Toast.children := [Text "Saved"]; Toast.animation := None;
     Toast.autohide := None; Toast.className := None; Toast.color := Some "info";
     Toast.delay := None; Toast.index := Some 3; Toast.key := None;
     Toast.visible := None; Toast.onClose := Some 2%nat;
     Toast.onShow := Some 1%nat; Toast.attrs := {["id" := VStr "t1"]} |}.

Definition alert_demo : Alert.CAlertProps :=
  {| Alert.children := [Text "Saved"]; Alert.className := None;
     Alert.color := None; Alert.dismissible := Some true;
     Alert.onClose := Some 7%nat; Alert.variant := None;
     Alert.visible := None; Alert.attrs := {["id" := VStr "a1"]} |}.

(** A toast mounted with [visible] set, and an alert mounted with its
    defaults: both start out visible. *)
Definition toast_shown : Toast.state :=
  Toast.mount (Toast.with_visible true toast_demo) 0.

Definition alert_shown : Alert.state := Alert.mount alert_demo 0.

(** The visible sample toast of a caller that passes an [onMouseEnter]
    handler of its own. *)
Definition toast_own_mouseenter : Toast.state :=
  Toast.mount
    (Toast.with_attr "onMouseEnter" (VFun 9%nat) (Toast.with_visible true toast_demo))
    0.

(** The toast of the examples with [index = 0]. *)
Definition toast_index_zero : Toast.CToastProps :=
  {| Toast.children := []; Toast.animation := None; Toast.autohide := None;
     Toast.className := None; Toast.color := None; Toast.delay := None;
     Toast.index := Some 0; Toast.key := None; Toast.visible := None;
     Toast.onClose := Some 2%nat; Toast.onShow := Some 1%nat; Toast.attrs := ∅ |}.

(** The toast of the examples with a negative [index]. *)
Definition toast_index_negative : Toast.CToastProps :=
  {| Toast.children := []; Toast.animation := None; Toast.autohide := None;
     Toast.className := None; Toast.color := None; Toast.delay := None;
     Toast.index := Some (-1); Toast.key := None; Toast.visible := None;
     Toast.onClose := Some 2%nat; Toast.onShow := Some 1%nat; Toast.attrs := ∅ |}.

(** A body for a widget declared without one: a root [button] of class [btn]
    without children. *)
Definition button_body : Declared.body :=
  {| Declared.root := fun _ => "button";
     Declared.own := fun _ => {[ "className" := VStr "btn" ]};
     Declared.content := fun _ => [] |}.


Definition range_negative_steps : FormRange.CFormRangeProps :=
  {| FormRange.className := None; FormRange.disabled := None;
     FormRange.max := Some 10; FormRange.min := Some 0;
     FormRange.readOnly := None; FormRange.steps := -2;
     FormRange.attrs := ∅ |}.

(** * Properties *)

(** ** Transition: the status follows [in] *)

Section TransitionFacts.

Import Transition.

Lemma update_follows now p s :
  unmountOnExit p = true -> follows (in_ p) (fst (update now p s)).
Proof.
  intros Hu. destruct p as [i m u t], s as [x nc]; simpl in Hu; subst u.
  destruct i, x; cbn; reflexivity.
Qed.

Lemma update_same now p s :
  follows (in_ p) s -> update now p s = (s, []).
Proof.
  destruct p as [i m u t], s as [x nc]. unfold follows; simpl.
  destruct x, i; intros H; try discriminate H; try contradiction;
    unfold update, updateStatus; simpl; destruct u; reflexivity.
Qed.

Lemma mount_follows now p :
  unmountOnExit p = true -> follows (in_ p) (Transition.mount now p).
Proof.
  intros Hu. destruct p as [i m u t]; simpl in Hu; subst u.
  destruct i, m; cbn; reflexivity.
Qed.

Lemma finish_follows now p s r :
  unmountOnExit p = true -> follows (in_ p) s ->
  finish now p s = Some r -> follows (in_ p) (fst r).
Proof.
  intros Hu. destruct p as [i m u t], s as [x nc]; simpl in Hu; subst u.
  unfold finish, follows; simpl. destruct nc as [d|]; [|discriminate].
  destruct (d <=? now); [|discriminate].
  destruct x; intros H E; inversion E; subst; unfold follows; cbn; reflexivity.
Qed.

End TransitionFacts.

(** ** CToast: invariants of the reachable states *)

Section ToastInvariants.

Import Toast.

(** A mouseenter either clears the timer [timeout.current] names or, under a
    handler of the caller, leaves the state alone. *)
Lemma toast_mouseenter_cases s :
  (rest (props s) !! "onMouseEnter" = None
   /\ mouseenter s = clearTimeout (timeout_current s) s)
  \/ (is_Some (rest (props s) !! "onMouseEnter") /\ mouseenter s = s).
Proof.
  unfold mouseenter. destruct (rest (props s) !! "onMouseEnter"); eauto.
Qed.

Lemma toast_commit_same s : toast_consistent s -> commit s = s.
Proof.
  intros H. unfold commit.
  rewrite (update_same (now s) (transition_props s) (transition s) H).
  simpl. rewrite app_nil_r. destruct s; reflexivity.
Qed.

Lemma toast_commit_consistent s : toast_consistent (commit s).
Proof.
  unfold toast_consistent, commit.
  pose proof (update_follows (now s) (transition_props s) (transition s) eq_refl) as H.
  destruct (Transition.update _ _ _) as [t cs]. exact H.
Qed.

Lemma toast_autohide_consistent p s :
  toast_consistent s -> toast_consistent (_autohide p s).
Proof.
  unfold _autohide, toast_consistent. destruct (autohide_of p); [|auto].
  destruct (timeout_current s); auto.
Qed.

Lemma toast_setVisible_consistent b s :
  toast_consistent s -> toast_consistent (setVisible b s).
Proof.
  intros H. unfold setVisible. destruct (mounted s); [|exact H].
  case_bool_decide; [exact H|].
  apply toast_autohide_consistent, toast_commit_consistent.
Qed.

Lemma toast_mount_consistent p t0 : toast_consistent (mount p t0).
Proof.
  unfold mount. apply toast_setVisible_consistent, toast_autohide_consistent.
  reflexivity.
Qed.

Lemma toast_step_consistent s e s' :
  toast_consistent s -> step s e = Some s' -> toast_consistent s'.
Proof.
  intros H. destruct e; simpl.
  - destruct (mounted s); [|discriminate]. intros [= <-].
    case_bool_decide; [|apply toast_setVisible_consistent];
      apply toast_commit_consistent.
  - destruct (mounted s && rendered s); [|discriminate]. intros [= <-].
    apply toast_setVisible_consistent, H.
  - destruct (mounted s && rendered s); [|discriminate]. intros [= <-].
    destruct (toast_mouseenter_cases s) as [[_ ->] | [_ ->]]; [|exact H].
    destruct (timeout_current s); exact H.
  - destruct (mounted s && rendered s); [|discriminate]. intros [= <-]. exact H.
  - destruct (timers s !! id) as [td|]; [|discriminate].
    destruct (due td (now s)); [|discriminate]. intros [= <-].
    apply toast_setVisible_consistent, H.
  - destruct (Transition.finish _ _ _) as [[t cs]|] eqn:E; [|discriminate].
    intros [= <-].
    exact (finish_follows (now s) (transition_props s) _ _ eq_refl H E).
  - destruct (0 <=? dt); [|discriminate]. intros [= <-]. exact H.
  - destruct (mounted s); [|discriminate]. intros [= <-].
    destruct (timeout_current s); exact H.
Qed.

Lemma toast_reachable_consistent s : reachable s -> toast_consistent s.
Proof.
  induction 1 as [p t0 | s e s' _ IH E].
  - apply toast_mount_consistent.
  - exact (toast_step_consistent s e s' IH E).
Qed.

Lemma toast_clearTimeout_none s :
  toast_single_timer s -> timers (clearTimeout (timeout_current s) s) = ∅.
Proof.
  intros H. apply map_eq. intros i. rewrite lookup_empty.
  destruct (timeout_current s) as [c|] eqn:Ec; simpl.
  - destruct (decide (c = i)) as [->|Hne].
    + apply lookup_delete_eq.
    + rewrite lookup_delete_ne by exact Hne.
      destruct (timers s !! i) eqn:Ei; [|reflexivity].
      assert (timeout_current s = Some i) as Hi by (apply H; rewrite Ei; eauto).
      congruence.
  - destruct (timers s !! i) eqn:Ei; [|reflexivity].
    assert (timeout_current s = Some i) as Hi by (apply H; rewrite Ei; eauto).
    congruence.
Qed.

Lemma toast_autohide_timers p s :
  toast_single_timer s -> autohide_of p = true ->
  timers (_autohide p s) = {[ next_id s := (now s, delay_of p) ]}
  /\ timeout_current (_autohide p s) = Some (next_id s).
Proof.
  intros H Ha. unfold _autohide. rewrite Ha.
  pose proof (toast_clearTimeout_none s H) as Hc.
  assert (next_id (clearTimeout (timeout_current s) s) = next_id s) as Hn
    by (destruct (timeout_current s); reflexivity).
  assert (now (clearTimeout (timeout_current s) s) = now s) as Hw
    by (destruct (timeout_current s); reflexivity).
  simpl. rewrite Hc, Hn, Hw. split; [apply insert_empty | reflexivity].
Qed.

Lemma toast_autohide_single p s :
  toast_single_timer s -> toast_single_timer (_autohide p s).
Proof.
  intros H. destruct (autohide_of p) eqn:Ha.
  - destruct (toast_autohide_timers p s H Ha) as [Ht Hc].
    intros id. rewrite Ht, Hc. intros [x Hx].
    apply lookup_singleton_Some in Hx as [-> _]. reflexivity.
  - unfold _autohide. rewrite Ha. exact H.
Qed.

Lemma toast_commit_single s : toast_single_timer s -> toast_single_timer (commit s).
Proof.
  unfold commit. destruct (Transition.update _ _ _) as [t cs]. auto.
Qed.

Lemma toast_setVisible_single b s :
  toast_single_timer s -> toast_single_timer (setVisible b s).
Proof.
  intros H. unfold setVisible. destruct (mounted s); [|exact H].
  case_bool_decide; [exact H|].
  apply toast_autohide_single, toast_commit_single. exact H.
Qed.

Lemma toast_delete_single id s :
  toast_single_timer s -> toast_single_timer (set_timers (delete id (timers s)) s).
Proof.
  intros H i [x Hx]. simpl in *.
  apply lookup_delete_Some in Hx as [_ Hx]. apply H. eauto.
Qed.

Lemma toast_step_single s e s' :
  toast_single_timer s -> step s e = Some s' -> toast_single_timer s'.
Proof.
  intros H. destruct e; simpl.
  - destruct (mounted s); [|discriminate]. intros [= <-].
    case_bool_decide; [|apply toast_setVisible_single];
      apply toast_commit_single; exact H.
  - destruct (mounted s && rendered s); [|discriminate]. intros [= <-].
    apply toast_setVisible_single, H.
  - destruct (mounted s && rendered s); [|discriminate]. intros [= <-].
    destruct (toast_mouseenter_cases s) as [[_ ->] | [_ ->]]; [|exact H].
    destruct (timeout_current s); [apply toast_delete_single|]; exact H.
  - destruct (mounted s && rendered s); [|discriminate]. intros [= <-]. exact H.
  - destruct (timers s !! id) as [td|]; [|discriminate].
    destruct (due td (now s)); [|discriminate]. intros [= <-].
    apply toast_setVisible_single, toast_delete_single, H.
  - destruct (Transition.finish _ _ _) as [[t cs]|]; [|discriminate].
    intros [= <-]. exact H.
  - destruct (0 <=? dt); [|discriminate]. intros [= <-]. exact H.
  - destruct (mounted s); [|discriminate]. intros [= <-].
    destruct (timeout_current s); [apply (toast_delete_single _ s)|]; exact H.
Qed.

Lemma toast_reachable_single s : reachable s -> toast_single_timer s.
Proof.
  induction 1 as [p t0 | s e s' _ IH E].
  - unfold mount. apply toast_setVisible_single, toast_autohide_single.
    intros id [x Hx]. simpl in Hx. rewrite lookup_empty in Hx. discriminate.
  - exact (toast_step_single s e s' IH E).
Qed.

End ToastInvariants.

(** ** CAlert: invariant of the reachable states *)

Section AlertInvariants.

Import Alert.

Lemma alert_commit_same s : alert_consistent s -> commit s = s.
Proof.
  intros H. unfold commit.
  rewrite (update_same (now s) (transition_props s) (transition s) H).
  simpl. rewrite app_nil_r. destruct s; reflexivity.
Qed.

Lemma alert_commit_consistent s : alert_consistent (commit s).
Proof.
  unfold alert_consistent, commit.
  pose proof (update_follows (now s) (transition_props s) (transition s) eq_refl) as H.
  destruct (Transition.update _ _ _) as [t cs]. exact H.
Qed.

Lemma alert_setVisible_consistent b s :
  alert_consistent s -> alert_consistent (setVisible b s).
Proof.
  intros H. unfold setVisible. destruct (mounted s); [|exact H].
  case_bool_decide; [exact H | apply alert_commit_consistent].
Qed.

Lemma alert_mount_consistent p t0 : alert_consistent (mount p t0).
Proof.
  unfold mount. apply alert_setVisible_consistent.
  exact (mount_follows t0
           {| Transition.in_ := visible_of p; Transition.mountOnEnter := true;
              Transition.unmountOnExit := true; Transition.timeout := 150 |}
           eq_refl).
Qed.

Lemma alert_step_consistent s e s' :
  alert_consistent s -> step s e = Some s' -> alert_consistent s'.
Proof.
  intros H. destruct e; simpl.
  - destruct (mounted s); [|discriminate]. intros [= <-].
    case_bool_decide; [|apply alert_setVisible_consistent];
      apply alert_commit_consistent.
  - destruct (mounted s && rendered s && dismissible_of (props s)); [|discriminate].
    intros [= <-]. apply alert_setVisible_consistent, H.
  - destruct (Transition.finish _ _ _) as [[t cs]|] eqn:E; [|discriminate].
    intros [= <-].
    exact (finish_follows (now s) (transition_props s) _ _ eq_refl H E).
  - destruct (0 <=? dt); [|discriminate]. intros [= <-]. exact H.
  - destruct (mounted s); [|discriminate]. intros [= <-]. exact H.
Qed.

Lemma alert_reachable_consistent s : reachable s -> alert_consistent s.
Proof.
  induction 1 as [p t0 | s e s' _ IH E].
  - apply alert_mount_consistent.
  - exact (alert_step_consistent s e s' IH E).
Qed.

End AlertInvariants.

(** ** The dismiss and show transitions, step by step *)

Section ToastTransitions.

Import Toast.

Lemma toast_visible_active s :
  toast_consistent s -> _visible s = true ->
  Transition.active (Transition.st (transition s)) = true.
Proof.
  unfold toast_consistent, follows. intros H Hv. rewrite Hv in H.
  destruct (Transition.st (transition s)); try discriminate H;
    try contradiction; reflexivity.
Qed.

Lemma toast_hidden_inactive s :
  toast_consistent s -> _visible s = false ->
  Transition.active (Transition.st (transition s)) = false.
Proof.
  unfold toast_consistent, follows. intros H Hv. rewrite Hv in H.
  destruct (Transition.st (transition s)); try discriminate H;
    try contradiction; reflexivity.
Qed.

Lemma toast_visible_rendered s :
  toast_consistent s -> _visible s = true -> rendered s = true.
Proof.
  intros H Hv. pose proof (toast_visible_active s H Hv) as Ha.
  unfold rendered. destruct (Transition.st (transition s)); try discriminate Ha;
    reflexivity.
Qed.

(** [setVisible(false)] on a visible toast starts the exit transition and calls
    nothing yet. *)
Lemma toast_setVisible_false s :
  mounted s = true -> _visible s = true -> toast_consistent s ->
  _visible (setVisible false s) = false
  /\ transition (setVisible false s)
     = {| Transition.st := Transition.EXITING;
          Transition.nextCallback := Some (now s + 250) |}
  /\ log (setVisible false s) = log s
  /\ now (setVisible false s) = now s
  /\ props (setVisible false s) = props s
  /\ mounted (setVisible false s) = true.
Proof.
  intros Hm Hv Hc. pose proof (toast_visible_active s Hc Hv) as Ha.
  destruct s as [p v tc tm nid [x nc] lg nw mt]; simpl in *; subst.
  unfold setVisible, commit, _autohide; simpl.
  destruct x; try discriminate Ha; simpl;
    destruct (autohide_of p); simpl; rewrite ?app_nil_r;
    destruct tc; simpl; repeat split; reflexivity.
Qed.

(** [setVisible(true)] on a hidden toast starts the enter transition, and
    [Transition] calls [onEnter] at once. *)
Lemma toast_setVisible_true s :
  mounted s = true -> _visible s = false -> toast_consistent s ->
  _visible (setVisible true s) = true
  /\ transition (setVisible true s)
     = {| Transition.st := Transition.ENTERING;
          Transition.nextCallback := Some (now s + 250) |}
  /\ log (setVisible true s) = log s ++ onEnter (props s)
  /\ now (setVisible true s) = now s
  /\ props (setVisible true s) = props s
  /\ mounted (setVisible true s) = true.
Proof.
  intros Hm Hv Hc. pose proof (toast_hidden_inactive s Hc Hv) as Ha.
  unfold toast_consistent, follows in Hc.
  destruct s as [p v tc tm nid [x nc] lg nw mt]; simpl in *; subst.
  unfold setVisible, commit, _autohide; simpl.
  destruct x; try discriminate Ha; try contradiction; simpl;
    destruct (autohide_of p); simpl; rewrite ?app_nil_r;
    destruct tc; simpl; repeat split; reflexivity.
Qed.

(** A pending exit transition, left alone for its 250 ms, ends with the toast
    unmounted and [onExited] called. *)
Lemma toast_exit_completes s d dt :
  transition s = {| Transition.st := Transition.EXITING;
                    Transition.nextCallback := Some d |} ->
  0 <= dt -> d <= now s + dt ->
  exists s2, run s [Advance dt; TransitionEnd] = Some s2
    /\ Transition.st (transition s2) = Transition.UNMOUNTED
    /\ log s2 = log s ++ onExited (props s)
    /\ _visible s2 = _visible s.
Proof.
  intros Ht H0 Hd.
  destruct s as [p v tc tm nid t lg nw mt]; simpl in *; subst t.
  unfold run, step; simpl.
  destruct (Z.leb_spec 0 dt) as [_|?]; [|lia]. simpl.
  unfold Transition.finish; simpl.
  destruct (Z.leb_spec d (nw + dt)) as [_|?]; [|lia]. simpl.
  eexists; repeat split; simpl. rewrite app_nil_r. reflexivity.
Qed.

(** A pending enter transition ends with the toast entered and nothing
    called. *)
Lemma toast_enter_completes s d dt :
  transition s = {| Transition.st := Transition.ENTERING;
                    Transition.nextCallback := Some d |} ->
  0 <= dt -> d <= now s + dt ->
  exists s2, run s [Advance dt; TransitionEnd] = Some s2
    /\ Transition.st (transition s2) = Transition.ENTERED
    /\ log s2 = log s
    /\ _visible s2 = _visible s.
Proof.
  intros Ht H0 Hd.
  destruct s as [p v tc tm nid t lg nw mt]; simpl in *; subst t.
  unfold run, step; simpl.
  destruct (Z.leb_spec 0 dt) as [_|?]; [|lia]. simpl.
  unfold Transition.finish; simpl.
  destruct (Z.leb_spec d (nw + dt)) as [_|?]; [|lia]. simpl.
  eexists; repeat split; simpl. rewrite app_nil_r. reflexivity.
Qed.

End ToastTransitions.

Section ToastPropWrites.

Import Toast.

(** Changing only the [visible] prop commutes with a write to the local
    state: the closures of either render use the same callbacks, index,
    autohide flag and delay. *)
Lemma toast_setVisible_with_visible b v s :
  setVisible b (set_props (with_visible v (props s)) s)
  = set_props (with_visible v (props s)) (setVisible b s).
Proof.
  destruct s as [p vis tc tm nid [x nc] lg nw mt]; destruct p; simpl.
  unfold setVisible; simpl. destruct mt; [|reflexivity].
  case_bool_decide; [reflexivity|].
  unfold commit; simpl.
  destruct (Transition.update _ _ _) as [t cs].
  unfold _autohide, autohide_of, delay_of; simpl.
  destruct (default true _); [|reflexivity].
  destruct tc; reflexivity.
Qed.

(** A render with new props and the same local state changes nothing else. *)
Lemma toast_render_same p s :
  toast_consistent s -> commit (set_props p s) = set_props p s.
Proof. intros H. apply toast_commit_same. exact H. Qed.

Lemma toast_step_SetProps s p :
  toast_consistent s -> mounted s = true ->
  step s (SetProps p)
  = Some (if bool_decide (visible_of p = visible_of (props s))
          then set_props p s
          else setVisible (visible_of p) (set_props p s)).
Proof.
  intros Hc Hm. simpl. rewrite Hm, (toast_render_same p s Hc). reflexivity.
Qed.

End ToastPropWrites.

Section AlertTransitions.

Import Alert.

Lemma alert_visible_active s :
  alert_consistent s -> _visible s = true ->
  Transition.active (Transition.st (transition s)) = true.
Proof.
  unfold alert_consistent, follows. intros H Hv. rewrite Hv in H.
  destruct (Transition.st (transition s)); try discriminate H;
    try contradiction; reflexivity.
Qed.

Lemma alert_hidden_inactive s :
  alert_consistent s -> _visible s = false ->
  Transition.active (Transition.st (transition s)) = false.
Proof.
  unfold alert_consistent, follows. intros H Hv. rewrite Hv in H.
  destruct (Transition.st (transition s)); try discriminate H;
    try contradiction; reflexivity.
Qed.

Lemma alert_visible_rendered s :
  alert_consistent s -> _visible s = true -> rendered s = true.
Proof.
  intros H Hv. pose proof (alert_visible_active s H Hv) as Ha.
  unfold rendered. destruct (Transition.st (transition s)); try discriminate Ha;
    reflexivity.
Qed.

(** [setVisible(false)] on a visible alert starts the exit transition, and
    [Transition] calls [onExit], that is [onClose], at once. *)
Lemma alert_setVisible_false s :
  mounted s = true -> _visible s = true -> alert_consistent s ->
  _visible (setVisible false s) = false
  /\ transition (setVisible false s)
     = {| Transition.st := Transition.EXITING;
          Transition.nextCallback := Some (now s + 150) |}
  /\ log (setVisible false s) = log s ++ on_lifecycle (props s) Transition.onExit
  /\ now (setVisible false s) = now s
  /\ props (setVisible false s) = props s
  /\ mounted (setVisible false s) = true.
Proof.
  intros Hm Hv Hc. pose proof (alert_visible_active s Hc Hv) as Ha.
  destruct s as [p v [x nc] lg nw mt]; simpl in *; subst.
  unfold setVisible, commit; simpl.
  destruct x; try discriminate Ha; simpl; rewrite ?app_nil_r;
    repeat split; reflexivity.
Qed.

Lemma alert_setVisible_true s :
  mounted s = true -> _visible s = false -> alert_consistent s ->
  _visible (setVisible true s) = true
  /\ transition (setVisible true s)
     = {| Transition.st := Transition.ENTERING;
          Transition.nextCallback := Some (now s + 150) |}
  /\ log (setVisible true s) = log s
  /\ now (setVisible true s) = now s
  /\ props (setVisible true s) = props s
  /\ mounted (setVisible true s) = true.
Proof.
  intros Hm Hv Hc. pose proof (alert_hidden_inactive s Hc Hv) as Ha.
  unfold alert_consistent, follows in Hc.
  destruct s as [p v [x nc] lg nw mt]; simpl in *; subst.
  unfold setVisible, commit; simpl.
  destruct x; try discriminate Ha; try contradiction; simpl; rewrite ?app_nil_r;
    repeat split; reflexivity.
Qed.

(** The exit transition of an alert ends with the alert unmounted and no
    further call. *)
Lemma alert_exit_completes s d dt :
  transition s = {| Transition.st := Transition.EXITING;
                    Transition.nextCallback := Some d |} ->
  0 <= dt -> d <= now s + dt ->
  exists s2, run s [Advance dt; TransitionEnd] = Some s2
    /\ Transition.st (transition s2) = Transition.UNMOUNTED
    /\ log s2 = log s
    /\ _visible s2 = _visible s.
Proof.
  intros Ht H0 Hd.
  destruct s as [p v t lg nw mt]; simpl in *; subst t.
  unfold run, step; simpl.
  destruct (Z.leb_spec 0 dt) as [_|?]; [|lia]. simpl.
  unfold Transition.finish; simpl.
  destruct (Z.leb_spec d (nw + dt)) as [_|?]; [|lia]. simpl.
  eexists; repeat split; simpl. rewrite app_nil_r. reflexivity.
Qed.

Lemma alert_setVisible_with_visible b v s :
  setVisible b (set_props (with_visible v (props s)) s)
  = set_props (with_visible v (props s)) (setVisible b s).
Proof.
  destruct s as [p vis [x nc] lg nw mt]; destruct p; simpl.
  unfold setVisible; simpl. destruct mt; [|reflexivity].
  case_bool_decide; [reflexivity|].
  unfold commit; simpl.
  destruct (Transition.update _ _ _) as [t cs]. reflexivity.
Qed.

Lemma alert_step_SetProps s p :
  alert_consistent s -> mounted s = true ->
  step s (SetProps p)
  = Some (if bool_decide (visible_of p = visible_of (props s))
          then set_props p s
          else setVisible (visible_of p) (set_props p s)).
Proof.
  intros Hc Hm. simpl. rewrite Hm.
  rewrite (alert_commit_same (set_props p s) Hc). reflexivity.
Qed.

End AlertTransitions.

(** ** A dismissal from start to end *)

Section Dismiss.

Lemma toast_dismiss s f :
  Toast.mounted s = true -> Toast._visible s = true -> toast_consistent s ->
  Toast.onClose (Toast.props s) = Some f ->
  Toast._visible (Toast.setVisible false s) = false
  /\ Transition.st (Toast.transition (Toast.setVisible false s)) = Transition.EXITING
  /\ Toast.log (Toast.setVisible false s) = Toast.log s
  /\ forall dt, 250 <= dt ->
       exists s2,
         Toast.run (Toast.setVisible false s) [Toast.Advance dt; Toast.TransitionEnd]
           = Some s2
         /\ Transition.st (Toast.transition s2) = Transition.UNMOUNTED
         /\ Toast._visible s2 = false
         /\ Toast.log s2 = Toast.log s ++ [Call f (Toast.index_arg (Toast.props s))].
Proof.
  intros Hm Hv Hc Hf.
  destruct (toast_setVisible_false s Hm Hv Hc) as (Hv1 & Ht1 & Hl1 & Hn1 & Hp1 & _).
  repeat split; [exact Hv1 | rewrite Ht1; reflexivity | exact Hl1 |].
  intros dt Hdt.
  destruct (toast_exit_completes _ _ dt Ht1) as (s2 & Hr & Hs & Hl & Hv2);
    [lia | rewrite Hn1; lia |].
  exists s2. repeat split; [exact Hr | exact Hs | congruence |].
  rewrite Hl, Hl1, Hp1. unfold Toast.onExited. rewrite Hf. reflexivity.
Qed.

Lemma alert_dismiss s f :
  Alert.mounted s = true -> Alert._visible s = true -> alert_consistent s ->
  Alert.onClose (Alert.props s) = Some f ->
  Alert._visible (Alert.setVisible false s) = false
  /\ Transition.st (Alert.transition (Alert.setVisible false s)) = Transition.EXITING
  /\ Alert.log (Alert.setVisible false s) = Alert.log s ++ [Call f ANode]
  /\ forall dt, 150 <= dt ->
       exists s2,
         Alert.run (Alert.setVisible false s) [Alert.Advance dt; Alert.TransitionEnd]
           = Some s2
         /\ Transition.st (Alert.transition s2) = Transition.UNMOUNTED
         /\ Alert._visible s2 = false
         /\ Alert.log s2 = Alert.log s ++ [Call f ANode].
Proof.
  intros Hm Hv Hc Hf.
  destruct (alert_setVisible_false s Hm Hv Hc) as (Hv1 & Ht1 & Hl1 & Hn1 & Hp1 & _).
  assert (Alert.log (Alert.setVisible false s) = Alert.log s ++ [Call f ANode]) as Hl1'.
  { rewrite Hl1. simpl. rewrite Hf. reflexivity. }
  repeat split; [exact Hv1 | rewrite Ht1; reflexivity | exact Hl1' |].
  intros dt Hdt.
  destruct (alert_exit_completes _ _ dt Ht1) as (s2 & Hr & Hs & Hl & Hv2);
    [lia | rewrite Hn1; lia |].
  exists s2. repeat split; [exact Hr | exact Hs | congruence | congruence].
Qed.

End Dismiss.

(** ** C1 *)

(** C1, as stated, fails for CAlert: [onClose] is passed to [Transition] as
    [onExit], so the click on the close button of a freshly mounted alert has
    already called it while the exit transition is only starting. *)
Lemma alert_onClose_not_on_completion : ~ alert_closes_on_completion alert_shown.
Proof.
  intros H.
  destruct (H Alert.Close 7%nat eq_refl (alert_close_click alert_shown eq_refl))
    as (s1 & s2 & a & Hstep & Hlog & _).
  vm_compute in Hstep. injection Hstep as <-. vm_compute in Hlog. discriminate Hlog.
Qed.

(** C1 (amended).  A close action on a visible widget hides it, and [onClose]
    is called exactly once.  CToast calls it when the exit transition has
    completed, with the index when that is a non-zero number and with null
    otherwise.  CAlert calls it when the exit transition starts, and its
    completion adds no call. *)
Theorem close_action_calls_onClose_once :
  (forall s e f,
     Toast.reachable s -> Toast.mounted s = true -> Toast._visible s = true ->
     Toast.onClose (Toast.props s) = Some f -> toast_close_action s e ->
     exists s1,
       Toast.step s e = Some s1
       /\ Toast._visible s1 = false
       /\ Transition.st (Toast.transition s1) = Transition.EXITING
       /\ Toast.log s1 = Toast.log s
       /\ forall dt, 250 <= dt ->
            exists s2,
              Toast.run s1 [Toast.Advance dt; Toast.TransitionEnd] = Some s2
              /\ Transition.st (Toast.transition s2) = Transition.UNMOUNTED
              /\ Toast._visible s2 = false
              /\ Toast.log s2
                 = Toast.log s ++ [Call f (Toast.index_arg (Toast.props s))])
  /\
  (forall s e f,
     Alert.reachable s -> Alert.mounted s = true -> Alert._visible s = true ->
     Alert.onClose (Alert.props s) = Some f -> alert_close_action s e ->
     exists s1,
       Alert.step s e = Some s1
       /\ Alert._visible s1 = false
       /\ Transition.st (Alert.transition s1) = Transition.EXITING
       /\ Alert.log s1 = Alert.log s ++ [Call f ANode]
       /\ forall dt, 150 <= dt ->
            exists s2,
              Alert.run s1 [Alert.Advance dt; Alert.TransitionEnd] = Some s2
              /\ Transition.st (Alert.transition s2) = Transition.UNMOUNTED
              /\ Alert._visible s2 = false
              /\ Alert.log s2 = Alert.log s ++ [Call f ANode]).
Proof.
  split.
  - intros s e f Hr Hm Hv Hf Ha.
    pose proof (toast_reachable_consistent s Hr) as Hc.
    destruct Ha as [ | id td Hid Hdue | Hp ].
    + exists (Toast.setVisible false s). split.
      * simpl. rewrite Hm, (toast_visible_rendered s Hc Hv). reflexivity.
      * exact (toast_dismiss s f Hm Hv Hc Hf).
    + exists (Toast.setVisible false
                (Toast.set_timers (delete id (Toast.timers s)) s)). split.
      * simpl. rewrite Hid, Hdue. reflexivity.
      * exact (toast_dismiss (Toast.set_timers _ s) f Hm Hv Hc Hf).
    + set (p := Toast.with_visible false (Toast.props s)).
      exists (Toast.setVisible false (Toast.set_props p s)). split.
      * rewrite (toast_step_SetProps s p Hc Hm).
        rewrite bool_decide_eq_false_2; [reflexivity|].
        rewrite Hp. discriminate.
      * exact (toast_dismiss (Toast.set_props p s) f Hm Hv Hc Hf).
  - intros s e f Hr Hm Hv Hf Ha.
    pose proof (alert_reachable_consistent s Hr) as Hc.
    destruct Ha as [ Hd | Hp ].
    + exists (Alert.setVisible false s). split.
      * simpl. rewrite Hm, (alert_visible_rendered s Hc Hv), Hd. reflexivity.
      * exact (alert_dismiss s f Hm Hv Hc Hf).
    + set (p := Alert.with_visible false (Alert.props s)).
      exists (Alert.setVisible false (Alert.set_props p s)). split.
      * rewrite (alert_step_SetProps s p Hc Hm).
        rewrite bool_decide_eq_false_2; [reflexivity|].
        rewrite Hp. discriminate.
      * exact (alert_dismiss (Alert.set_props p s) f Hm Hv Hc Hf).
Qed.

(** A visible toast and a visible alert, closed by the close button. *)
Lemma close_action_witness :
  (exists s1, Toast.step toast_shown Toast.Close = Some s1
              /\ Toast.log s1 = Toast.log toast_shown)
  /\ (exists s1, Alert.step alert_shown Alert.Close = Some s1
                 /\ Alert.log s1 = Alert.log alert_shown ++ [Call 7%nat ANode]).
Proof.
  split.
  - destruct (proj1 close_action_calls_onClose_once toast_shown Toast.Close 2%nat)
      as (s1 & Hs & _ & _ & Hl & _).
    + apply Toast.reach_mount.
    + reflexivity.
    + reflexivity.
    + reflexivity.
    + apply toast_close_click.
    + exists s1. split; [exact Hs | exact Hl].
  - destruct (proj2 close_action_calls_onClose_once alert_shown Alert.Close 7%nat)
      as (s1 & Hs & _ & _ & Hl & _).
    + apply Alert.reach_mount.
    + reflexivity.
    + reflexivity.
    + reflexivity.
    + apply alert_close_click. reflexivity.
    + exists s1. split; [exact Hs | exact Hl].
Defined.

(** ** C2 *)

(** C2, as stated, fails: [onShow] is wired to [onEnter], which [Transition]
    calls when the enter transition starts.  A toast mounted hidden has called
    it as soon as the [visible] prop is set. *)
Lemma toast_onShow_not_on_completion :
  ~ toast_shows_on_completion (Toast.mount toast_demo 0).
Proof.
  intros H. destruct (H 1%nat eq_refl) as (s1 & s2 & a & Hstep & Hlog & _).
  vm_compute in Hstep. injection Hstep as <-. vm_compute in Hlog. discriminate Hlog.
Qed.

(** C2 (amended).  Setting the [visible] prop of a hidden toast to true, when
    the prop was false (or omitted), makes the toast visible and calls [onShow]
    exactly once, when the enter transition starts; the completion of the
    transition adds no call.  A toast that is hidden while its prop is still
    true (closed by its timer or by its close button) is left as it is: the
    prop has not changed, and nothing is called. *)
Theorem show_calls_onShow_at_start s f :
  Toast.reachable s -> Toast.mounted s = true ->
  Toast._visible s = false ->
  Toast.onShow (Toast.props s) = Some f ->
  (Toast.visible_of (Toast.props s) = false ->
   exists s1,
     Toast.step s (Toast.SetProps (Toast.with_visible true (Toast.props s))) = Some s1
     /\ Toast._visible s1 = true
     /\ Transition.st (Toast.transition s1) = Transition.ENTERING
     /\ Toast.log s1 = Toast.log s ++ [Call f (Toast.index_arg (Toast.props s))]
     /\ forall dt, 250 <= dt ->
          exists s2,
            Toast.run s1 [Toast.Advance dt; Toast.TransitionEnd] = Some s2
            /\ Transition.st (Toast.transition s2) = Transition.ENTERED
            /\ Toast._visible s2 = true
            /\ Toast.log s2 = Toast.log s1)
  /\ (Toast.visible_of (Toast.props s) = true ->
      exists s1,
        Toast.step s (Toast.SetProps (Toast.with_visible true (Toast.props s)))
        = Some s1
        /\ Toast._visible s1 = false
        /\ Toast.transition s1 = Toast.transition s
        /\ Toast.timers s1 = Toast.timers s
        /\ Toast.log s1 = Toast.log s).
Proof.
  intros Hr Hm Hv Hf.
  pose proof (toast_reachable_consistent s Hr) as Hc.
  set (p := Toast.with_visible true (Toast.props s)).
  split.
  - intros Hp.
    exists (Toast.setVisible true (Toast.set_props p s)).
    destruct (toast_setVisible_true (Toast.set_props p s) Hm Hv Hc)
      as (Hv1 & Ht1 & Hl1 & Hn1 & _).
    split.
    { rewrite (toast_step_SetProps s p Hc Hm).
      rewrite bool_decide_eq_false_2; [reflexivity|]. rewrite Hp. discriminate. }
    repeat split; [exact Hv1 | rewrite Ht1; reflexivity | |].
    + rewrite Hl1. simpl. unfold Toast.onEnter. simpl. rewrite Hf. reflexivity.
    + intros dt Hdt.
      destruct (toast_enter_completes _ _ dt Ht1) as (s2 & Hrun & Hs & Hl & Hv2);
        [lia | rewrite Hn1; simpl; lia |].
      exists s2. repeat split; [exact Hrun | exact Hs | congruence | exact Hl].
  - intros Hp. exists (Toast.set_props p s). split.
    + rewrite (toast_step_SetProps s p Hc Hm).
      rewrite bool_decide_eq_true_2; [reflexivity|]. rewrite Hp. reflexivity.
    + repeat split; exact Hv.
Qed.

(** A toast mounted hidden, then shown by its parent. *)
Lemma show_calls_onShow_witness :
  exists s1,
    Toast.step (Toast.mount toast_demo 0)
      (Toast.SetProps (Toast.with_visible true toast_demo)) = Some s1
    /\ Toast.log s1 = [Call 1%nat (ANum 3)].
Proof.
  destruct (proj1 (show_calls_onShow_at_start (Toast.mount toast_demo 0) 1%nat
                     (Toast.reach_mount toast_demo 0) eq_refl eq_refl eq_refl)
              eq_refl)
    as (s1 & Hs & _ & _ & Hl & _).
  exists s1. split; [exact Hs | exact Hl].
Defined.

(** ** The auto-hide timer of CToast *)

Section ToastTimer.

Import Toast.

Lemma toast_commit_fields s :
  props (commit s) = props s /\ _visible (commit s) = _visible s
  /\ timers (commit s) = timers s /\ timeout_current (commit s) = timeout_current s
  /\ next_id (commit s) = next_id s /\ now (commit s) = now s
  /\ mounted (commit s) = mounted s.
Proof.
  unfold commit. destruct (Transition.update _ _ _) as [t cs].
  repeat split; reflexivity.
Qed.

Lemma toast_autohide_fields p s :
  props (_autohide p s) = props s /\ _visible (_autohide p s) = _visible s
  /\ now (_autohide p s) = now s /\ mounted (_autohide p s) = mounted s.
Proof.
  unfold _autohide. destruct (autohide_of p); [|repeat split; reflexivity].
  destruct (timeout_current s); repeat split; reflexivity.
Qed.

(** What a write to the local state does to the timers: nothing when the
    value is unchanged; otherwise, with [autohide], the one pending timer is a
    fresh one set now. *)
Lemma toast_setVisible_timers b s :
  toast_single_timer s ->
  props (setVisible b s) = props s /\ now (setVisible b s) = now s
  /\ mounted (setVisible b s) = mounted s
  /\ ((setVisible b s = s)
      \/ (_visible s <> b /\ _visible (setVisible b s) = b /\ mounted s = true
          /\ (autohide_of (props s) = true ->
              timers (setVisible b s) = {[ next_id s := (now s, delay_of (props s)) ]}
              /\ timeout_current (setVisible b s) = Some (next_id s)))).
Proof.
  intros H. unfold setVisible. destruct (mounted s) eqn:Hm; [|auto 6].
  case_bool_decide as Hb; [auto 6|].
  match goal with |- context [commit ?x] => set (s1 := x) end.
  destruct (toast_commit_fields s1) as (Hp & Hv & Ht & Hc & Hn & Hw & Hmt).
  destruct (toast_autohide_fields (props s) (commit s1)) as (Hp' & Hv' & Hw' & Hmt').
  split; [rewrite Hp', Hp; reflexivity|].
  split; [rewrite Hw', Hw; reflexivity|].
  split; [rewrite Hmt', Hmt; reflexivity|].
  right. split; [exact Hb|]. split; [rewrite Hv', Hv; reflexivity|].
  split; [reflexivity|].
  intros Ha.
  assert (toast_single_timer (commit s1)) as Hs by (apply toast_commit_single; exact H).
  destruct (toast_autohide_timers (props s) (commit s1) Hs Ha) as [E1 E2].
  rewrite E1, E2, Hn, Hw. split; reflexivity.
Qed.

(** One step and the timers: time does not go back; either visibility is
    unchanged and no timer is added, or it toggled and, with [autohide], the
    timer was cleared and set again. *)
Lemma toast_step_timers s e s' :
  toast_single_timer s -> toast_consistent s -> step s e = Some s' ->
  now s <= now s'
  /\ (props s' = props s \/ e = SetProps (props s'))
  /\ ((_visible s' = _visible s
       /\ forall id td, timers s' !! id = Some td -> timers s !! id = Some td)
      \/ (_visible s' <> _visible s /\ mounted s' = true /\ now s' = now s
          /\ (autohide_of (props s') = true ->
              timers s' = {[ next_id s := (now s, delay_of (props s')) ]}
              /\ timeout_current s' = Some (next_id s)))).
Proof.
  intros H Hc.
  assert (forall b s0, toast_single_timer s0 ->
            now s0 = now s -> next_id s0 = next_id s -> _visible s0 = _visible s ->
            (forall id td, timers s0 !! id = Some td -> timers s !! id = Some td) ->
            now s <= now (setVisible b s0)
            /\ props (setVisible b s0) = props s0
            /\ ((_visible (setVisible b s0) = _visible s
                 /\ forall id td, timers (setVisible b s0) !! id = Some td ->
                                  timers s !! id = Some td)
                \/ (_visible (setVisible b s0) <> _visible s
                    /\ mounted (setVisible b s0) = true
                    /\ now (setVisible b s0) = now s
                    /\ (autohide_of (props (setVisible b s0)) = true ->
                        timers (setVisible b s0)
                        = {[ next_id s := (now s, delay_of (props (setVisible b s0))) ]}
                        /\ timeout_current (setVisible b s0) = Some (next_id s)))))
    as Hset.
  { intros b s0 H0 Hn Hi Hv Hsub.
    destruct (toast_setVisible_timers b s0 H0) as (Hp & Hw & Hm & [E | (Hne & Hb & Hmt & Ht)]).
    - rewrite E. split; [lia|]. split; [reflexivity|]. left. auto.
    - split; [lia|]. split; [exact Hp|]. right.
      split; [congruence|]. split; [congruence|]. split; [congruence|].
      rewrite Hp, <- Hn, <- Hi. exact Ht. }
  destruct e; simpl.
  - destruct (mounted s); [|discriminate]. intros [= <-].
    rewrite (toast_render_same p s Hc).
    case_bool_decide.
    + split; [simpl; lia|]. split; [right; reflexivity|]. left. simpl. auto.
    + destruct (Hset (visible_of p) (set_props p s) H eq_refl eq_refl eq_refl)
        as (Hn & Hp & Hr); [auto|].
      split; [exact Hn|]. split; [right; rewrite Hp; reflexivity | exact Hr].
  - destruct (mounted s && rendered s); [|discriminate]. intros [= <-].
    destruct (Hset false s H eq_refl eq_refl eq_refl) as (Hn & Hp & Hr); auto.
  - destruct (mounted s && rendered s); [|discriminate]. intros [= <-].
    destruct (toast_mouseenter_cases s) as [[_ ->] | [_ ->]];
      [|split; [lia|]; auto].
    destruct (timeout_current s); simpl.
    + split; [lia|]. split; [left; reflexivity|]. left. split; [reflexivity|].
      intros id td Hl. apply lookup_delete_Some in Hl as [_ Hl]. exact Hl.
    + split; [lia|]. auto.
  - destruct (mounted s && rendered s); [|discriminate]. intros [= <-].
    unfold mouseleave. split; [lia|]. auto.
  - destruct (timers s !! id) as [td|]; [|discriminate].
    destruct (due td (now s)); [|discriminate]. intros [= <-].
    destruct (Hset false (set_timers (delete id (timers s)) s)
                (toast_delete_single id s H) eq_refl eq_refl eq_refl)
      as (Hn & Hp & Hr).
    + intros i x Hl. simpl in Hl. apply lookup_delete_Some in Hl as [_ Hl]. exact Hl.
    + split; [exact Hn|]. split; [left; exact Hp | exact Hr].
  - destruct (Transition.finish _ _ _) as [[t cs]|]; [|discriminate].
    intros [= <-]. simpl. split; [lia|]. auto.
  - destruct (Z.leb_spec 0 dt); [|discriminate]. intros [= <-]. simpl.
    split; [lia|]. auto.
  - destruct (mounted s); [|discriminate]. intros [= <-].
    destruct (timeout_current s); simpl.
    + split; [lia|]. split; [left; reflexivity|]. left. split; [reflexivity|].
      intros i x Hl. apply lookup_delete_Some in Hl as [_ Hl]. exact Hl.
    + split; [lia|]. auto.
Qed.

Lemma toast_setVisible_value b s :
  mounted s = true -> _visible (setVisible b s) = b.
Proof.
  intros Hm. unfold setVisible. rewrite Hm. case_bool_decide as Hb; [exact Hb|].
  match goal with |- context [commit ?x] => set (s1 := x) end.
  destruct (toast_commit_fields s1) as (_ & Hv & _).
  destruct (toast_autohide_fields (props s) (commit s1)) as (_ & Hv' & _).
  rewrite Hv', Hv. reflexivity.
Qed.

Lemma toast_mount_mounted p t0 : mounted (mount p t0) = true.
Proof.
  unfold mount.
  match goal with |- context [_autohide p ?x] => set (s0 := x) end.
  assert (toast_single_timer (_autohide p s0)) as Hs.
  { apply toast_autohide_single. intros id [x Hx]. simpl in Hx.
    rewrite lookup_empty in Hx. discriminate. }
  destruct (toast_setVisible_timers (visible_of p) _ Hs) as (_ & _ & Hm & _).
  destruct (toast_autohide_fields p s0) as (_ & _ & _ & Hm').
  rewrite Hm, Hm'. reflexivity.
Qed.

(** Once the component is unmounted none of its timers is pending. *)
Lemma toast_unmounted_no_timers s :
  reachable s -> mounted s = false -> timers s = ∅.
Proof.
  induction 1 as [p t0 | s e s' Hr IH E].
  - rewrite toast_mount_mounted. discriminate.
  - pose proof (toast_reachable_single s Hr) as Hs.
    pose proof (toast_reachable_consistent s Hr) as Hc.
    intros Hm'. destruct (mounted s) eqn:Hm.
    + destruct e; simpl in E; rewrite ?Hm in E; simpl in E.
      * injection E as <-. rewrite (toast_render_same p s Hc) in Hm'.
        case_bool_decide; simpl in Hm'; [congruence|].
        destruct (toast_setVisible_timers (visible_of p) (set_props p s) Hs)
          as (_ & _ & Hx & _). simpl in Hx. congruence.
      * destruct (rendered s); [|discriminate]. injection E as <-.
        destruct (toast_setVisible_timers false s Hs) as (_ & _ & Hx & _). congruence.
      * destruct (rendered s); [|discriminate]. injection E as <-.
        destruct (toast_mouseenter_cases s) as [[_ Hx] | [_ Hx]];
          rewrite Hx in Hm'; [|congruence].
        destruct (timeout_current s); simpl in Hm'; congruence.
      * destruct (rendered s); [|discriminate]. injection E as <-.
        unfold mouseleave in Hm'. congruence.
      * destruct (timers s !! id) as [td|]; [|discriminate].
        destruct (due td (now s)); [|discriminate]. injection E as <-.
        destruct (toast_setVisible_timers false _ (toast_delete_single id s Hs))
          as (_ & _ & Hx & _). simpl in Hx. congruence.
      * destruct (Transition.finish _ _ _) as [[t cs]|]; [|discriminate].
        injection E as <-. simpl in Hm'. congruence.
      * destruct (0 <=? dt); [|discriminate]. injection E as <-.
        simpl in Hm'. congruence.
      * injection E as <-.
        pose proof (toast_clearTimeout_none s Hs) as Hn.
        destruct (timeout_current s); simpl in *; exact Hn.
    + specialize (IH eq_refl).
      destruct e; simpl in E; rewrite ?Hm in E; simpl in E; try discriminate E.
      * rewrite IH, lookup_empty in E. discriminate.
      * destruct (Transition.finish _ _ _) as [[t cs]|]; [|discriminate].
        injection E as <-. exact IH.
      * destruct (0 <=? dt); [|discriminate]. injection E as <-. exact IH.
Qed.

Lemma toast_armed_since_step t0 s e s' :
  toast_single_timer s -> toast_consistent s ->
  toast_kept (props s) -> toast_keeps e -> t0 <= now s ->
  toast_armed_since t0 s -> step s e = Some s' ->
  toast_kept (props s') /\ t0 <= now s' /\ toast_armed_since t0 s'.
Proof.
  intros Hs Hc Hk He Ht Ha E.
  destruct (toast_step_timers s e s' Hs Hc E) as (Hn & Hp & Hr).
  assert (toast_kept (props s')) as Hk'.
  { destruct Hp as [-> | ->]; [exact Hk | exact He]. }
  split; [exact Hk'|]. split; [lia|].
  destruct Hr as [(Hv & Hsub) | (Hv & _ & _ & Hre)].
  - intros Hv' id td Hl. apply (Ha (eq_trans (eq_sym Hv) Hv') id td), Hsub, Hl.
  - destruct Hk' as [Hauto Hdelay]. destruct (Hre Hauto) as [Htm _].
    intros _ id td Hl. rewrite Htm in Hl.
    apply lookup_singleton_Some in Hl as [_ <-]. simpl. split; [lia | exact Hdelay].
Qed.

Lemma toast_armed_since_run t0 es : forall s s',
  reachable s -> toast_kept (props s) -> Forall toast_keeps es -> t0 <= now s ->
  toast_armed_since t0 s -> run s es = Some s' ->
  reachable s' /\ t0 <= now s' /\ toast_armed_since t0 s'.
Proof.
  induction es as [|e es IH]; intros s s' Hr Hk He Ht Ha E; simpl in E.
  - injection E as <-. auto.
  - destruct (step s e) as [s1|] eqn:E1; [|discriminate].
    apply Forall_cons in He as [He1 He].
    destruct (toast_armed_since_step t0 s e s1
                (toast_reachable_single s Hr) (toast_reachable_consistent s Hr)
                Hk He1 Ht Ha E1) as (Hk1 & Ht1 & Ha1).
    exact (IH s1 s' (reach_step s e s1 Hr E1) Hk1 He Ht1 Ha1 E).
Qed.

(** A pending timer fires once its delay has passed. *)
Lemma toast_timer_fires s id t d dt :
  timers s !! id = Some (t, d) -> 0 <= dt -> t + Z.max 0 d <= now s + dt ->
  exists sA,
    step s (Advance dt) = Some sA /\ mounted sA = mounted s
    /\ run s [Advance dt; TimerFire id]
       = Some (setVisible false (set_timers (delete id (timers sA)) sA)).
Proof.
  intros Hl H0 Hd. simpl. destruct (Z.leb_spec 0 dt); [|lia].
  eexists. split; [reflexivity|]. split; [reflexivity|].
  simpl. rewrite Hl. unfold due. simpl.
  destruct (Z.leb_spec (t + Z.max 0 d) (now s + dt)); [reflexivity | lia].
Qed.

(** A toast that has just become visible is mounted, and with [autohide] its
    only pending timer was set at this very moment. *)
Lemma toast_just_shown_timer s :
  toast_just_shown s ->
  reachable s /\ mounted s = true /\ _visible s = true
  /\ (autohide_of (props s) = true ->
      exists id, timers s = {[ id := (now s, delay_of (props s)) ]}
                 /\ timeout_current s = Some id).
Proof.
  intros [p t0 Hv | s0 e s1 Hr Hv0 E Hv1].
  - split; [apply reach_mount|]. split; [apply toast_mount_mounted|].
    split; [exact Hv|]. revert Hv. unfold mount.
    match goal with |- context [_autohide p ?x] => set (s0 := x) end.
    assert (toast_single_timer (_autohide p s0)) as Hs.
    { apply toast_autohide_single. intros id [x Hx]. simpl in Hx.
      rewrite lookup_empty in Hx. discriminate. }
    destruct (toast_autohide_fields p s0) as (_ & Hv0 & _).
    destruct (toast_setVisible_timers (visible_of p) _ Hs)
      as (Hp & Hw & _ & [-> | (_ & _ & _ & Ht)]).
    + rewrite Hv0. discriminate.
    + intros _ Ha. rewrite Hp, Hw. rewrite Hp in Ha. eauto.
  - split; [exact (reach_step s0 e s1 Hr E)|].
    destruct (toast_step_timers s0 e s1 (toast_reachable_single s0 Hr)
                (toast_reachable_consistent s0 Hr) E)
      as (_ & _ & [(Hv & _) | (_ & Hm & Hw & Ht)]); [congruence|].
    split; [exact Hm|]. split; [exact Hv1|].
    intros Ha. rewrite Hw. destruct (Ht Ha) as [E1 E2]. eauto.
Qed.

End ToastTimer.

(** ** C3 *)

(** C3, as stated, fails for a toast whose caller passes [onMouseEnter]:
    [{...rest}] follows the component's handler on the root element and
    replaces it, so the mouseenter clears nothing and the timer set at the
    mount stays pending. *)
Lemma toast_mouseenter_not_cancelled : ~ toast_mouseenter_cancels toast_own_mouseenter.
Proof.
  intros H. specialize (H (conj eq_refl eq_refl) toast_own_mouseenter eq_refl).
  assert (Toast.timers toast_own_mouseenter !! 1%nat = Some (0, 5000)) as Hl
    by reflexivity.
  rewrite H, lookup_empty in Hl. discriminate Hl.
Qed.

(** C3 (amended).  In every reachable state of a toast at most one timer of
    the instance is pending.  A mouseenter cancels it when the caller passes no
    [onMouseEnter] attribute, and leaves the state as it is when the caller
    passes one; the unmount cleanup cancels it, and no timer fires once the
    toast is unmounted.  When the toast has just become visible with
    [autohide = true] and [delay = 5000], the pending timer is one set at that
    moment with that delay; it hides the toast when 5000 ms have passed, and as
    long as the props keep these two values no timer hides the visible toast
    earlier than 5000 ms after that moment. *)
Theorem autohide_timer_discipline s :
  Toast.reachable s ->
  (forall i j, is_Some (Toast.timers s !! i) -> is_Some (Toast.timers s !! j) -> i = j)
  /\ (Toast.rest (Toast.props s) !! "onMouseEnter" = None ->
      forall s', Toast.step s Toast.MouseEnter = Some s' -> Toast.timers s' = ∅)
  /\ (is_Some (Toast.rest (Toast.props s) !! "onMouseEnter") ->
      forall s', Toast.step s Toast.MouseEnter = Some s' -> s' = s)
  /\ (forall s', Toast.step s Toast.Unmount = Some s' -> Toast.timers s' = ∅)
  /\ (Toast.mounted s = false -> forall id, Toast.step s (Toast.TimerFire id) = None)
  /\ (toast_just_shown s -> toast_kept (Toast.props s) ->
      (exists id s2,
         Toast.timers s = {[ id := (Toast.now s, 5000) ]}
         /\ Toast.timeout_current s = Some id
         /\ Toast.run s [Toast.Advance 5000; Toast.TimerFire id] = Some s2
         /\ Toast._visible s2 = false)
      /\ (forall es s2 id s3,
            Forall toast_keeps es -> Toast.run s es = Some s2 ->
            Toast._visible s2 = true ->
            Toast.step s2 (Toast.TimerFire id) = Some s3 ->
            Toast.now s + 5000 <= Toast.now s2 /\ Toast._visible s3 = false)).
Proof.
  intros Hr.
  pose proof (toast_reachable_single s Hr) as Hs.
  split; [|split; [|split; [|split; [|split]]]].
  - intros i j Hi Hj. apply Hs in Hi. apply Hs in Hj. congruence.
  - intros Hrest s' E. simpl in E.
    destruct (Toast.mounted s && Toast.rendered s); [|discriminate].
    injection E as <-. unfold Toast.mouseenter. rewrite Hrest.
    apply (toast_clearTimeout_none s Hs).
  - intros [h Hrest] s' E. simpl in E.
    destruct (Toast.mounted s && Toast.rendered s); [|discriminate].
    injection E as <-. unfold Toast.mouseenter. rewrite Hrest. reflexivity.
  - intros s' E. simpl in E. destruct (Toast.mounted s); [|discriminate].
    injection E as <-. pose proof (toast_clearTimeout_none s Hs) as Hn.
    destruct (Toast.timeout_current s); simpl in *; exact Hn.
  - intros Hm id. simpl.
    rewrite (toast_unmounted_no_timers s Hr Hm), lookup_empty. reflexivity.
  - intros Hj [Hauto Hdelay].
    destruct (toast_just_shown_timer s Hj) as (_ & Hm & Hv & Ht).
    destruct (Ht Hauto) as (id & Htm & Hcur). rewrite Hdelay in Htm.
    split.
    + destruct (toast_timer_fires s id (Toast.now s) 5000 5000)
        as (sA & _ & HmA & Hrun); [rewrite Htm; apply lookup_singleton_eq | lia.. |].
      exists id. eexists. split; [exact Htm|]. split; [exact Hcur|].
      split; [exact Hrun|].
      apply toast_setVisible_value. simpl. congruence.
    + intros es s2 id' s3 He Hrun Hv2 E.
      assert (toast_armed_since (Toast.now s) s) as Ha.
      { intros _ i td Hl. rewrite Htm in Hl.
        apply lookup_singleton_Some in Hl as [_ <-]. simpl. split; [lia | reflexivity]. }
      destruct (toast_armed_since_run (Toast.now s) es s s2 Hr
                  (conj Hauto Hdelay) He (Z.le_refl _) Ha Hrun) as (Hr2 & _ & Ha2).
      simpl in E. destruct (Toast.timers s2 !! id') as [td|] eqn:Hl; [|discriminate].
      destruct (Toast.due td (Toast.now s2)) eqn:Hdue; [|discriminate].
      injection E as <-.
      destruct (Ha2 Hv2 id' td Hl) as [H1 H2].
      unfold Toast.due in Hdue. apply Z.leb_le in Hdue. rewrite H2 in Hdue.
      split; [lia|].
      apply toast_setVisible_value. simpl.
      destruct (Toast.mounted s2) eqn:Hm2; [reflexivity|].
      rewrite (toast_unmounted_no_timers s2 Hr2 Hm2), lookup_empty in Hl.
      discriminate.
Qed.

(** The toast mounted visible with the default [autohide] and [delay]: its one
    timer is the second the instance has set, at time 0 with delay 5000. *)
Lemma autohide_timer_witness :
  exists id s2,
    Toast.timers toast_shown = {[ id := (0, 5000) ]}
    /\ Toast.timeout_current toast_shown = Some id
    /\ Toast.run toast_shown [Toast.Advance 5000; Toast.TimerFire id] = Some s2
    /\ Toast._visible s2 = false.
Proof.
  refine (proj1 (proj2 (proj2 (proj2 (proj2 (proj2
            (autohide_timer_discipline toast_shown _))))) _ _)).
  - apply Toast.reach_mount.
  - apply shown_on_mount. reflexivity.
  - split; reflexivity.
Defined.

(** ** The local state and the external prop *)

Section TracksProp.

Lemma toast_setVisible_false_hidden s :
  Toast._visible (Toast.setVisible false s) = true -> Toast._visible s = true.
Proof.
  unfold Toast.setVisible. destruct (Toast.mounted s); [|auto].
  case_bool_decide as Hb; [auto|].
  match goal with |- context [Toast.commit ?x] => set (s1 := x) end.
  destruct (toast_commit_fields s1) as (_ & Hv & _).
  destruct (toast_autohide_fields (Toast.props s) (Toast.commit s1)) as (_ & Hv' & _).
  rewrite Hv', Hv. simpl. discriminate.
Qed.

Lemma toast_setVisible_false_tracks s :
  toast_tracks_prop s -> toast_tracks_prop (Toast.setVisible false s).
Proof.
  intros H Hv. apply toast_setVisible_false_hidden in Hv as Hv0.
  destruct (Toast.mounted s) eqn:Hm.
  - rewrite (toast_setVisible_value false s Hm) in Hv. discriminate.
  - unfold Toast.setVisible. rewrite Hm. exact (H Hv0).
Qed.

Lemma toast_reachable_tracks s : Toast.reachable s -> toast_tracks_prop s.
Proof.
  induction 1 as [p t0 | s e s' Hr IH E].
  - intros Hv. rewrite <- Hv. unfold Toast.mount.
    match goal with |- context [Toast._autohide p ?x] => set (s0 := x) end.
    destruct (toast_autohide_fields p s0) as (Hp & _ & _ & Hm).
    rewrite toast_setVisible_value by (rewrite Hm; reflexivity).
    destruct (toast_setVisible_timers (Toast.visible_of p) (Toast._autohide p s0))
      as (Hp' & _).
    { apply toast_autohide_single. intros id [x Hx]. simpl in Hx.
      rewrite lookup_empty in Hx. discriminate. }
    rewrite Hp', Hp. reflexivity.
  - pose proof (toast_reachable_consistent s Hr) as Hc.
    pose proof (toast_reachable_single s Hr) as Hs.
    destruct e; simpl in E.
    + destruct (Toast.mounted s) eqn:Hm; [|discriminate]. injection E as <-.
      rewrite (toast_render_same p s Hc).
      case_bool_decide as Hb.
      * intros Hv. simpl in *. rewrite Hb. exact (IH Hv).
      * intros Hv.
        rewrite (toast_setVisible_value _ (Toast.set_props p s) Hm) in Hv.
        destruct (toast_setVisible_timers (Toast.visible_of p) (Toast.set_props p s) Hs)
          as (Hp' & _).
        rewrite Hp'. exact Hv.
    + destruct (Toast.mounted s && Toast.rendered s); [|discriminate].
      injection E as <-. apply toast_setVisible_false_tracks, IH.
    + destruct (Toast.mounted s && Toast.rendered s); [|discriminate].
      injection E as <-.
      destruct (toast_mouseenter_cases s) as [[_ ->] | [_ ->]]; [|exact IH].
      destruct (Toast.timeout_current s); exact IH.
    + destruct (Toast.mounted s && Toast.rendered s); [|discriminate].
      injection E as <-. exact IH.
    + destruct (Toast.timers s !! id) as [td|]; [|discriminate].
      destruct (Toast.due td (Toast.now s)); [|discriminate]. injection E as <-.
      apply toast_setVisible_false_tracks. exact IH.
    + destruct (Transition.finish _ _ _) as [[t cs]|]; [|discriminate].
      injection E as <-. exact IH.
    + destruct (0 <=? dt); [|discriminate]. injection E as <-. exact IH.
    + destruct (Toast.mounted s); [|discriminate]. injection E as <-.
      destruct (Toast.timeout_current s); exact IH.
Qed.

Lemma alert_commit_fields s :
  Alert.props (Alert.commit s) = Alert.props s
  /\ Alert._visible (Alert.commit s) = Alert._visible s
  /\ Alert.now (Alert.commit s) = Alert.now s
  /\ Alert.mounted (Alert.commit s) = Alert.mounted s.
Proof.
  unfold Alert.commit. destruct (Transition.update _ _ _) as [t cs].
  repeat split; reflexivity.
Qed.

Lemma alert_setVisible_fields b s :
  Alert.props (Alert.setVisible b s) = Alert.props s
  /\ Alert.mounted (Alert.setVisible b s) = Alert.mounted s
  /\ (Alert.mounted s = true -> Alert._visible (Alert.setVisible b s) = b)
  /\ (Alert.mounted s = false -> Alert.setVisible b s = s).
Proof.
  unfold Alert.setVisible. destruct (Alert.mounted s) eqn:Hm.
  - case_bool_decide as Hb; [repeat split; auto; discriminate|].
    match goal with |- context [Alert.commit ?x] => set (s1 := x) end.
    destruct (alert_commit_fields s1) as (Hp & Hv & _ & Hmt).
    rewrite Hp, Hv, Hmt. repeat split; auto; discriminate.
  - repeat split; auto; discriminate.
Qed.

Lemma alert_setVisible_false_tracks s :
  alert_tracks_prop s -> alert_tracks_prop (Alert.setVisible false s).
Proof.
  intros H Hv. destruct (alert_setVisible_fields false s) as (Hp & _ & Ht & Hf).
  destruct (Alert.mounted s) eqn:Hm.
  - rewrite (Ht eq_refl) in Hv. discriminate.
  - rewrite (Hf eq_refl) in Hv |- *. exact (H Hv).
Qed.

Lemma alert_reachable_tracks s : Alert.reachable s -> alert_tracks_prop s.
Proof.
  induction 1 as [p t0 | s e s' Hr IH E].
  - intros Hv. unfold Alert.mount in *.
    match goal with |- context [Alert.setVisible _ ?x] => set (s0 := x) in * end.
    destruct (alert_setVisible_fields (Alert.visible_of p) s0) as (Hp & _ & Ht & _).
    rewrite Hp. rewrite (Ht eq_refl) in Hv. exact Hv.
  - pose proof (alert_reachable_consistent s Hr) as Hc.
    destruct e; simpl in E.
    + destruct (Alert.mounted s) eqn:Hm; [|discriminate]. injection E as <-.
      rewrite (alert_commit_same (Alert.set_props p s) Hc).
      case_bool_decide as Hb.
      * intros Hv. simpl in *. rewrite Hb. exact (IH Hv).
      * intros Hv.
        destruct (alert_setVisible_fields (Alert.visible_of p) (Alert.set_props p s))
          as (Hp & _ & Ht & _).
        rewrite Hp. rewrite (Ht Hm) in Hv. exact Hv.
    + destruct (Alert.mounted s && Alert.rendered s && Alert.dismissible_of _);
        [|discriminate].
      injection E as <-. apply alert_setVisible_false_tracks, IH.
    + destruct (Transition.finish _ _ _) as [[t cs]|]; [|discriminate].
      injection E as <-. exact IH.
    + destruct (0 <=? dt); [|discriminate]. injection E as <-. exact IH.
    + destruct (Alert.mounted s); [|discriminate]. injection E as <-. exact IH.
Qed.

End TracksProp.

(** ** C4 *)

(** C4.  While the widget is mounted, a render whose [visible] prop has the
    value of the previous render changes no part of the widget's state but the
    props it holds: local visibility, transition status, timers and the log of
    callback calls stay as they were.  With the very same props the state is
    unchanged. *)
Theorem visible_prop_write_idempotent :
  (forall s p,
     Toast.reachable s -> Toast.mounted s = true ->
     Toast.visible_of p = Toast.visible_of (Toast.props s) ->
     Toast.step s (Toast.SetProps p) = Some (Toast.set_props p s)
     /\ Toast.log (Toast.set_props p s) = Toast.log s
     /\ (p = Toast.props s -> Toast.set_props p s = s))
  /\
  (forall s p,
     Alert.reachable s -> Alert.mounted s = true ->
     Alert.visible_of p = Alert.visible_of (Alert.props s) ->
     Alert.step s (Alert.SetProps p) = Some (Alert.set_props p s)
     /\ Alert.log (Alert.set_props p s) = Alert.log s
     /\ (p = Alert.props s -> Alert.set_props p s = s)).
Proof.
  split.
  - intros s p Hr Hm Hv. split; [|split].
    + rewrite (toast_step_SetProps s p (toast_reachable_consistent s Hr) Hm).
      rewrite bool_decide_eq_true_2 by exact Hv. reflexivity.
    + reflexivity.
    + intros ->. destruct s; reflexivity.
  - intros s p Hr Hm Hv. split; [|split].
    + rewrite (alert_step_SetProps s p (alert_reachable_consistent s Hr) Hm).
      rewrite bool_decide_eq_true_2 by exact Hv. reflexivity.
    + reflexivity.
    + intros ->. destruct s; reflexivity.
Qed.

(** Writing [visible = true] again to the visible toast and alert. *)
Lemma visible_prop_write_witness :
  Toast.step toast_shown (Toast.SetProps (Toast.with_visible true toast_demo))
  = Some toast_shown
  /\ Alert.step alert_shown (Alert.SetProps (Alert.with_visible true alert_demo))
     = Some (Alert.set_props (Alert.with_visible true alert_demo) alert_shown).
Proof.
  split.
  - destruct (proj1 visible_prop_write_idempotent toast_shown
                (Toast.with_visible true toast_demo)) as (Hs & _ & He).
    + apply Toast.reach_mount.
    + reflexivity.
    + reflexivity.
    + rewrite Hs, (He eq_refl). reflexivity.
  - destruct (proj2 visible_prop_write_idempotent alert_shown
                (Alert.with_visible true alert_demo)) as (Hs & _).
    + apply Alert.reach_mount.
    + reflexivity.
    + reflexivity.
    + exact Hs.
Defined.

(** ** C5 *)

(** C5.  After a render that changes the [visible] prop the local state equals
    the prop.  Setting the prop from true to false leaves the widget in the
    state the close action leaves it in (but for the props held), and setting
    it from false to true makes the widget visible with the enter transition
    started. *)
Theorem local_state_follows_visible_prop :
  (forall s,
     Toast.reachable s -> Toast.mounted s = true ->
     (forall p, exists s',
        Toast.step s (Toast.SetProps p) = Some s'
        /\ (Toast.visible_of p <> Toast.visible_of (Toast.props s) ->
            Toast._visible s' = Toast.visible_of p))
     /\ (Toast.visible_of (Toast.props s) = true ->
         Toast.step s (Toast.SetProps (Toast.with_visible false (Toast.props s)))
         = Some (Toast.set_props (Toast.with_visible false (Toast.props s))
                   (Toast.setVisible false s))
         /\ (Toast.rendered s = true ->
             Toast.step s Toast.Close = Some (Toast.setVisible false s)))
     /\ (Toast.visible_of (Toast.props s) = false ->
         exists s',
           Toast.step s (Toast.SetProps (Toast.with_visible true (Toast.props s)))
           = Some s'
           /\ Toast._visible s' = true
           /\ Transition.st (Toast.transition s') = Transition.ENTERING))
  /\
  (forall s,
     Alert.reachable s -> Alert.mounted s = true ->
     (forall p, exists s',
        Alert.step s (Alert.SetProps p) = Some s'
        /\ (Alert.visible_of p <> Alert.visible_of (Alert.props s) ->
            Alert._visible s' = Alert.visible_of p))
     /\ (Alert.visible_of (Alert.props s) = true ->
         Alert.step s (Alert.SetProps (Alert.with_visible false (Alert.props s)))
         = Some (Alert.set_props (Alert.with_visible false (Alert.props s))
                   (Alert.setVisible false s))
         /\ (Alert.rendered s = true -> Alert.dismissible_of (Alert.props s) = true ->
             Alert.step s Alert.Close = Some (Alert.setVisible false s)))
     /\ (Alert.visible_of (Alert.props s) = false ->
         exists s',
           Alert.step s (Alert.SetProps (Alert.with_visible true (Alert.props s)))
           = Some s'
           /\ Alert._visible s' = true
           /\ Transition.st (Alert.transition s') = Transition.ENTERING)).
Proof.
  split.
  - intros s Hr Hm.
    pose proof (toast_reachable_consistent s Hr) as Hc.
    split; [|split].
    + intros p. eexists. split; [apply (toast_step_SetProps s p Hc Hm)|].
      intros Hne. rewrite bool_decide_eq_false_2 by exact Hne.
      apply toast_setVisible_value. exact Hm.
    + intros Hp. split.
      * rewrite (toast_step_SetProps s _ Hc Hm).
        rewrite bool_decide_eq_false_2 by (rewrite Hp; discriminate).
        simpl. rewrite toast_setVisible_with_visible. reflexivity.
      * intros Hrd. simpl. rewrite Hm, Hrd. reflexivity.
    + intros Hp.
      assert (Toast._visible s = false) as Hv.
      { destruct (Toast._visible s) eqn:Hv; [|reflexivity].
        pose proof (toast_reachable_tracks s Hr Hv). congruence. }
      set (p := Toast.with_visible true (Toast.props s)).
      destruct (toast_setVisible_true (Toast.set_props p s) Hm Hv Hc)
        as (Hv1 & Ht1 & _).
      exists (Toast.setVisible true (Toast.set_props p s)).
      split; [|split; [exact Hv1 | rewrite Ht1; reflexivity]].
      rewrite (toast_step_SetProps s p Hc Hm).
      rewrite bool_decide_eq_false_2 by (rewrite Hp; discriminate). reflexivity.
  - intros s Hr Hm.
    pose proof (alert_reachable_consistent s Hr) as Hc.
    split; [|split].
    + intros p. eexists. split; [apply (alert_step_SetProps s p Hc Hm)|].
      intros Hne. rewrite bool_decide_eq_false_2 by exact Hne.
      destruct (alert_setVisible_fields (Alert.visible_of p) (Alert.set_props p s))
        as (_ & _ & Ht & _).
      exact (Ht Hm).
    + intros Hp. split.
      * rewrite (alert_step_SetProps s _ Hc Hm).
        rewrite bool_decide_eq_false_2 by (rewrite Hp; discriminate).
        simpl. rewrite alert_setVisible_with_visible. reflexivity.
      * intros Hrd Hd. simpl. rewrite Hm, Hrd, Hd. reflexivity.
    + intros Hp.
      assert (Alert._visible s = false) as Hv.
      { destruct (Alert._visible s) eqn:Hv; [|reflexivity].
        pose proof (alert_reachable_tracks s Hr Hv). congruence. }
      set (p := Alert.with_visible true (Alert.props s)).
      destruct (alert_setVisible_true (Alert.set_props p s) Hm Hv Hc)
        as (Hv1 & Ht1 & _).
      exists (Alert.setVisible true (Alert.set_props p s)).
      split; [|split; [exact Hv1 | rewrite Ht1; reflexivity]].
      rewrite (alert_step_SetProps s p Hc Hm).
      rewrite bool_decide_eq_false_2 by (rewrite Hp; discriminate). reflexivity.
Qed.

(** The visible toast and alert, hidden by their parent. *)
Lemma local_state_follows_witness :
  Toast.step toast_shown
    (Toast.SetProps (Toast.with_visible false (Toast.props toast_shown)))
  = Some (Toast.set_props (Toast.with_visible false (Toast.props toast_shown))
            (Toast.setVisible false toast_shown))
  /\ Alert.step alert_shown
       (Alert.SetProps (Alert.with_visible false (Alert.props alert_shown)))
     = Some (Alert.set_props (Alert.with_visible false (Alert.props alert_shown))
               (Alert.setVisible false alert_shown)).
Proof.
  split.
  - refine (proj1 (proj1 (proj2
      (proj1 local_state_follows_visible_prop toast_shown _ _)) _)).
    + apply Toast.reach_mount.
    + reflexivity.
    + reflexivity.
  - refine (proj1 (proj1 (proj2
      (proj2 local_state_follows_visible_prop alert_shown _ _)) _)).
    + apply Alert.reach_mount.
    + reflexivity.
    + reflexivity.
Defined.

(** ** Attribute passthrough *)

Section Passthrough.

Lemma foldr_delete_insert (k : string) (v : value) (l : list string)
    (m : gmap string value) :
  k ∉ l -> foldr delete (<[k:=v]> m) l = <[k:=v]> (foldr delete m l).
Proof.
  induction l as [|a l IH]; intros Hk; simpl; [reflexivity|].
  apply not_elem_of_cons in Hk as [Hne Hk].
  rewrite (IH Hk). apply delete_insert_ne. congruence.
Qed.

Lemma assign_insert (a k : string) (o : option value) (v : value)
    (m : gmap string value) :
  k <> a -> assign a o (<[k:=v]> m) = <[k:=v]> (assign a o m).
Proof.
  intros Hne. destruct o as [x|]; simpl.
  - apply insert_insert_ne. congruence.
  - apply delete_insert_ne. congruence.
Qed.

Lemma createElement_insert (t k : string) (v : value) (m : gmap string value)
    (cs : list node) :
  k <> "key" -> k <> "ref" ->
  createElement t (<[k:=v]> m) cs = with_eprop k v (createElement t m cs).
Proof.
  intros Hk Hr. unfold createElement, with_eprop; simpl.
  rewrite !lookup_insert_ne by congruence.
  rewrite !delete_insert_ne by congruence. reflexivity.
Qed.

Lemma toast_render_with_attr p ref st k v :
  k ∉ Toast.destructured -> k <> "ref" ->
  Toast.render (Toast.with_attr k v p) ref st
  = with_eprop k v <$> Toast.render p ref st.
Proof.
  intros Hk Hr.
  assert (k <> "key") as Hkey.
  { intros ->. apply Hk. unfold Toast.destructured. set_solver. }
  assert (Toast.rest (Toast.with_attr k v p) = <[k:=v]> (Toast.rest p)) as Hrest
    by exact (foldr_delete_insert k v Toast.destructured (Toast.attrs p) Hk).
  unfold Toast.render. case_bool_decide; [reflexivity|].
  rewrite Hrest. cbn [fmap option_fmap option_map].
  change (Toast.children (Toast.with_attr k v p)) with (Toast.children p).
  change (Toast._className (Toast.with_attr k v p)) with (Toast._className p).
  rewrite <- insert_union_l, !assign_insert by assumption.
  rewrite createElement_insert by assumption. reflexivity.
Qed.

Lemma alert_render_with_attr p ref st k v :
  k ∉ Alert.destructured -> k <> "key" -> k <> "ref" ->
  Alert.render (Alert.with_attr k v p) ref st
  = with_eprop k v <$> Alert.render p ref st.
Proof.
  intros Hk Hkey Hr.
  assert (Alert.rest (Alert.with_attr k v p) = <[k:=v]> (Alert.rest p)) as Hrest
    by exact (foldr_delete_insert k v Alert.destructured (Alert.attrs p) Hk).
  unfold Alert.render. case_bool_decide; [reflexivity|].
  rewrite Hrest. cbn [fmap option_fmap option_map].
  change (Alert.children (Alert.with_attr k v p)) with (Alert.children p).
  change (Alert.dismissible_of (Alert.with_attr k v p)) with (Alert.dismissible_of p).
  change (Alert._className (Alert.with_attr k v p)) with (Alert._className p).
  rewrite <- insert_union_l, !assign_insert by assumption.
  rewrite createElement_insert by assumption. reflexivity.
Qed.

Lemma formrange_with_attr p ref k v :
  k ∉ FormRange.typed -> k <> "key" -> k <> "ref" ->
  FormRange.CFormRange (FormRange.with_attr k v p) ref
  = with_eprop k v (FormRange.CFormRange p ref).
Proof.
  intros Hk Hkey Hr.
  assert (k <> "className" /\ k <> "disabled" /\ k <> "max" /\ k <> "min"
          /\ k <> "readOnly" /\ k <> "steps") as (H1 & H2 & H3 & H4 & H5 & H6).
  { repeat split; intros ->; apply Hk; unfold FormRange.typed; set_solver. }
  unfold FormRange.CFormRange. cbn [FormRange.with_attr FormRange.attrs
    FormRange.steps FormRange.max FormRange.min FormRange.disabled
    FormRange.readOnly FormRange.className].
  rewrite <- insert_union_l.
  rewrite (insert_insert_ne _ "className" k) by congruence.
  rewrite !assign_insert by assumption.
  apply createElement_insert; assumption.
Qed.

Lemma declared_taken_insert d props k v :
  k ∉ Declared.destructured d ->
  Declared.taken d (<[k:=v]> props) = Declared.taken d props.
Proof.
  unfold Declared.taken. induction (Declared.destructured d) as [|a l IH];
    intros Hk; [reflexivity|].
  apply not_elem_of_cons in Hk as [Hne Hk]. cbn [fmap list_fmap].
  rewrite lookup_insert_ne by congruence. f_equal. exact (IH Hk).
Qed.

Lemma declared_render_insert d b props ref k v :
  k ∉ Declared.destructured d -> k <> "key" -> k <> "ref" ->
  Declared.render d b (<[k:=v]> props) ref
  = with_eprop k v (Declared.render d b props ref).
Proof.
  intros Hk Hkey Hr. unfold Declared.render, Declared.rest.
  rewrite (declared_taken_insert d props k v Hk).
  rewrite (foldr_delete_insert k v _ props Hk).
  rewrite <- insert_union_l, assign_insert by assumption.
  apply createElement_insert; assumption.
Qed.

Lemma assign_lookup_ne (a k : string) (o : option value) (m : gmap string value) :
  k <> a -> assign a o m !! k = m !! k.
Proof.
  intros Hne. destruct o as [x|]; simpl;
    [apply lookup_insert_ne | apply lookup_delete_ne]; congruence.
Qed.

(** The handlers on the root element of a toast are the two closures of the
    component unless the caller passes attributes of the same names, which
    then take their place: this is what [mouseenter] and [mouseleave]
    dispatch on. *)
Lemma toast_root_handlers p ref st e :
  Toast.render p ref st = Some e ->
  eprops e !! "onMouseEnter"
  = Some (default (VHandler ClearTimeout) (Toast.rest p !! "onMouseEnter"))
  /\ eprops e !! "onMouseLeave"
     = Some (default (VHandler AutohideRef) (Toast.rest p !! "onMouseLeave")).
Proof.
  unfold Toast.render. case_bool_decide; [discriminate|].
  intros [= <-]. unfold createElement; cbn [eprops].
  repeat first [ rewrite lookup_delete_ne by discriminate
               | rewrite assign_lookup_ne by discriminate ].
  rewrite !lookup_union. split.
  - rewrite !lookup_insert_ne by discriminate. rewrite lookup_insert_eq.
    destruct (Toast.rest p !! "onMouseEnter"); reflexivity.
  - rewrite !lookup_insert_ne by discriminate. rewrite lookup_singleton_eq.
    destruct (Toast.rest p !! "onMouseLeave"); reflexivity.
Qed.

End Passthrough.

(** ** C6 *)

(** C6.  An attribute whose name is not one the component destructures (and
    is not React's own [key] or [ref]) reaches the rendered root element under
    the same name with the same value; the element is otherwise the one
    rendered without that attribute: same tag, class name, other props, key,
    ref and children.  This holds of [CToast] and [CAlert], whose bodies are
    given; of [CFormRange]; and, whatever their bodies make of the typed
    props, of [CButton], [CDropdownToggle], [CListGroupItem], [CFormCheck] and
    [CTableHeaderCell]. *)
Theorem unrecognized_attribute_passthrough k v :
  k <> "key" -> k <> "ref" ->
  (k ∉ Toast.destructured ->
   forall p ref st,
     Toast.render (Toast.with_attr k v p) ref st
     = with_eprop k v <$> Toast.render p ref st
     /\ (st <> Transition.UNMOUNTED ->
         exists e, Toast.render (Toast.with_attr k v p) ref st = Some e
                   /\ eprops e !! k = Some v))
  /\
  (k ∉ Alert.destructured ->
   forall p ref st,
     Alert.render (Alert.with_attr k v p) ref st
     = with_eprop k v <$> Alert.render p ref st
     /\ (st <> Transition.UNMOUNTED ->
         exists e, Alert.render (Alert.with_attr k v p) ref st = Some e
                   /\ eprops e !! k = Some v))
  /\
  (k ∉ FormRange.typed ->
   forall p ref,
     FormRange.CFormRange (FormRange.with_attr k v p) ref
     = with_eprop k v (FormRange.CFormRange p ref)
     /\ eprops (FormRange.CFormRange (FormRange.with_attr k v p) ref) !! k = Some v)
  /\
  (forall d,
     d ∈ Declared.widgets -> k ∉ Declared.destructured d ->
     forall b props ref,
       Declared.render d b (<[k:=v]> props) ref
       = with_eprop k v (Declared.render d b props ref)
       /\ eprops (Declared.render d b (<[k:=v]> props) ref) !! k = Some v).
Proof.
  intros Hkey Href. split; [|split; [|split]].
  - intros Hk p ref st.
    pose proof (toast_render_with_attr p ref st k v Hk Href) as E.
    split; [exact E|]. intros Hst. rewrite E.
    unfold Toast.render. rewrite bool_decide_eq_false_2 by exact Hst. simpl.
    eexists. split; [reflexivity|]. simpl. apply lookup_insert_eq.
  - intros Hk p ref st.
    pose proof (alert_render_with_attr p ref st k v Hk Hkey Href) as E.
    split; [exact E|]. intros Hst. rewrite E.
    unfold Alert.render. rewrite bool_decide_eq_false_2 by exact Hst. simpl.
    eexists. split; [reflexivity|]. simpl. apply lookup_insert_eq.
  - intros Hk p ref.
    pose proof (formrange_with_attr p ref k v Hk Hkey Href) as E.
    split; [exact E|]. rewrite E. apply lookup_insert_eq.
  - intros d _ Hk b props ref.
    pose proof (declared_render_insert d b props ref k v Hk Hkey Href) as E.
    split; [exact E|]. rewrite E. apply lookup_insert_eq.
Qed.

(** A [data-testid] attribute on the entered toast and alert, on a range
    input and on a button. *)
Lemma unrecognized_attribute_witness :
  (exists e,
     Toast.render (Toast.with_attr "data-testid" (VStr "x") toast_demo)
       None Transition.ENTERED = Some e
     /\ eprops e !! "data-testid" = Some (VStr "x"))
  /\ (exists e,
        Alert.render (Alert.with_attr "data-testid" (VStr "x") alert_demo)
          None Transition.ENTERED = Some e
        /\ eprops e !! "data-testid" = Some (VStr "x"))
  /\ eprops (FormRange.CFormRange
               (FormRange.with_attr "data-testid" (VStr "x") range_negative_steps)
               None) !! "data-testid" = Some (VStr "x")
  /\ eprops (Declared.render Declared.CButton button_body
               (<["data-testid" := VStr "x"]> ∅) None) !! "data-testid"
     = Some (VStr "x").
Proof.
  assert (forall l : list string,
            forallb (fun n => negb (String.eqb "data-testid" n)) l = true ->
            "data-testid" ∉ l) as Hnot.
  { induction l as [|a l IH]; cbn [forallb]; intros H; [apply not_elem_of_nil|].
    apply andb_prop in H as [Ha Hl]. apply not_elem_of_cons. split; [|exact (IH Hl)].
    apply negb_true_iff, String.eqb_neq in Ha. exact Ha. }
  split; [|split; [|split]].
  - refine (proj2 (proj1 (unrecognized_attribute_passthrough
                            "data-testid" (VStr "x") _ _) _ toast_demo None
                     Transition.ENTERED) _).
    + discriminate.
    + discriminate.
    + apply Hnot. reflexivity.
    + discriminate.
  - refine (proj2 (proj1 (proj2 (unrecognized_attribute_passthrough
                                   "data-testid" (VStr "x") _ _)) _ alert_demo None
                     Transition.ENTERED) _).
    + discriminate.
    + discriminate.
    + apply Hnot. reflexivity.
    + discriminate.
  - refine (proj2 (proj1 (proj2 (proj2 (unrecognized_attribute_passthrough
                                          "data-testid" (VStr "x") _ _))) _
                     range_negative_steps None)).
    + discriminate.
    + discriminate.
    + apply Hnot. reflexivity.
  - refine (proj2 (proj2 (proj2 (proj2 (unrecognized_attribute_passthrough
                                          "data-testid" (VStr "x") _ _)))
                     Declared.CButton _ _ button_body ∅ None)).
    + discriminate.
    + discriminate.
    + apply list_elem_of_here.
    + apply Hnot. reflexivity.
Defined.

(** ** C7 *)



(** ** C8 *)

Section IndexArg.

(** [index ? index : null]: 0 and an omitted index give null, every other
    number is passed on as it is. *)
Lemma toast_index_arg_cases p :
  (Toast.index p = Some 0 -> Toast.index_arg p = ANull)
  /\ (forall i, Toast.index p = Some i -> i <> 0 -> Toast.index_arg p = ANum i)
  /\ (Toast.index p = None -> Toast.index_arg p = ANull).
Proof.
  unfold Toast.index_arg. repeat split.
  - intros ->. reflexivity.
  - intros i -> Hi. destruct (Z.eqb_spec i 0); [contradiction | reflexivity].
  - intros ->. reflexivity.
Qed.

End IndexArg.

(** C8.  The argument of [onShow] and [onClose] is [index ? index : null]:
    showing a toast logs one call of [onShow] and closing it logs, when the
    exit transition ends, one call of [onClose], each with null when [index] is
    0 (or omitted) and with the index itself when it is any other number,
    negative ones included.  A callback receives a number only when [index]
    holds that number and it is not 0. *)
Theorem index_zero_reaches_callbacks_as_null s :
  Toast.reachable s -> Toast.mounted s = true ->
  (forall f,
     Toast.onShow (Toast.props s) = Some f ->
     Toast.visible_of (Toast.props s) = false ->
     exists s1 a,
       Toast.step s (Toast.SetProps (Toast.with_visible true (Toast.props s)))
       = Some s1
       /\ Toast.log s1 = Toast.log s ++ [Call f a]
       /\ (Toast.index (Toast.props s) = Some 0 -> a = ANull)
       /\ (forall i, Toast.index (Toast.props s) = Some i -> i <> 0 -> a = ANum i)
       /\ (Toast.index (Toast.props s) = None -> a = ANull))
  /\ (forall g,
        Toast.onClose (Toast.props s) = Some g -> Toast._visible s = true ->
        exists s1 s2 a,
          Toast.step s Toast.Close = Some s1
          /\ Toast.run s1 [Toast.Advance 250; Toast.TransitionEnd] = Some s2
          /\ Toast.log s2 = Toast.log s ++ [Call g a]
          /\ (Toast.index (Toast.props s) = Some 0 -> a = ANull)
          /\ (forall i, Toast.index (Toast.props s) = Some i -> i <> 0 -> a = ANum i)
          /\ (Toast.index (Toast.props s) = None -> a = ANull))
  /\ (forall p i c,
        c ∈ Toast.onEnter p ++ Toast.onExited p ->
        (exists f, c = Call f (ANum i)) ->
        Toast.index p = Some i /\ i <> 0).
Proof.
  intros Hr Hm.
  pose proof (toast_reachable_consistent s Hr) as Hc.
  destruct (toast_index_arg_cases (Toast.props s)) as (Hzero & Hnum & Hnone).
  split; [|split].
  - intros f Hf Hp.
    assert (Toast._visible s = false) as Hv.
    { destruct (Toast._visible s) eqn:Hv; [|reflexivity].
      pose proof (toast_reachable_tracks s Hr Hv). congruence. }
    set (p := Toast.with_visible true (Toast.props s)).
    destruct (toast_setVisible_true (Toast.set_props p s) Hm Hv Hc)
      as (_ & _ & Hl & _).
    exists (Toast.setVisible true (Toast.set_props p s)),
      (Toast.index_arg (Toast.props s)).
    split; [|split; [|auto]].
    + rewrite (toast_step_SetProps s p Hc Hm).
      rewrite bool_decide_eq_false_2 by (rewrite Hp; discriminate). reflexivity.
    + rewrite Hl. simpl. unfold Toast.onEnter. simpl. rewrite Hf. reflexivity.
  - intros g Hg Hv.
    destruct (toast_dismiss s g Hm Hv Hc Hg) as (_ & _ & _ & Hend).
    destruct (Hend 250 (Z.le_refl _)) as (s2 & Hrun & _ & _ & Hl).
    exists (Toast.setVisible false s), s2, (Toast.index_arg (Toast.props s)).
    split; [|split; [exact Hrun | split; [exact Hl | auto]]].
    simpl. rewrite Hm, (toast_visible_rendered s Hc Hv). reflexivity.
  - intros p i c Hin [f ->].
    assert (Toast.index_arg p = ANum i) as Ha.
    { apply elem_of_app in Hin as [Hin | Hin];
        [unfold Toast.onEnter in Hin; destruct (Toast.onShow p)
        |unfold Toast.onExited in Hin; destruct (Toast.onClose p)];
        try (apply elem_of_nil in Hin; contradiction);
        apply list_elem_of_singleton in Hin; congruence. }
    unfold Toast.index_arg in Ha. destruct (Toast.index p) as [j|]; [|discriminate].
    destruct (Z.eqb_spec j 0); [discriminate|]. injection Ha as ->. auto.
Qed.

(** A toast with [index = 0] and a toast with [index = -1], each mounted
    hidden and then shown. *)
Lemma index_zero_witness :
  (exists s1,
     Toast.step (Toast.mount toast_index_zero 0)
       (Toast.SetProps (Toast.with_visible true toast_index_zero)) = Some s1
     /\ Toast.log s1 = [Call 1%nat ANull])
  /\ (exists s1,
        Toast.step (Toast.mount toast_index_negative 0)
          (Toast.SetProps (Toast.with_visible true toast_index_negative)) = Some s1
        /\ Toast.log s1 = [Call 1%nat (ANum (-1))]).
Proof.
  split.
  - destruct (proj1 (index_zero_reaches_callbacks_as_null
                       (Toast.mount toast_index_zero 0)
                       (Toast.reach_mount toast_index_zero 0) eq_refl)
                1%nat eq_refl eq_refl)
      as (s1 & a & Hs & Hl & Hz & _).
    exists s1. split; [exact Hs|]. rewrite Hl, (Hz eq_refl). reflexivity.
  - destruct (proj1 (index_zero_reaches_callbacks_as_null
                       (Toast.mount toast_index_negative 0)
                       (Toast.reach_mount toast_index_negative 0) eq_refl)
                1%nat eq_refl eq_refl)
      as (s1 & a & Hs & Hl & _ & Hn & _).
    exists s1. split; [exact Hs|].
    rewrite Hl, (Hn (-1) eq_refl) by discriminate. reflexivity.
Defined.

(** ** After the mouse has entered *)

Section MouseEnter.

Import Toast.

(** Only a change of the [visible] prop turns the local state to true. *)
Lemma toast_step_shows s e s' :
  step s e = Some s' -> _visible s = false -> _visible s' = true ->
  exists p, e = SetProps p /\ visible_of p <> visible_of (props s).
Proof.
  intros E Hv Hv'. destruct e; simpl in E.
  - destruct (mounted s); [|discriminate]. injection E as <-.
    case_bool_decide as Hb; [|eauto].
    destruct (toast_commit_fields (set_props p s)) as (_ & Hc & _).
    rewrite Hc in Hv'. simpl in Hv'. congruence.
  - destruct (mounted s && rendered s); [|discriminate]. injection E as <-.
    apply toast_setVisible_false_hidden in Hv'. congruence.
  - destruct (mounted s && rendered s); [|discriminate]. injection E as <-.
    destruct (toast_mouseenter_cases s) as [[_ Hx] | [_ Hx]];
      rewrite Hx in Hv'; [|congruence].
    destruct (timeout_current s); simpl in Hv'; congruence.
  - destruct (mounted s && rendered s); [|discriminate]. injection E as <-.
    unfold mouseleave in Hv'. congruence.
  - destruct (timers s !! id) as [td|]; [|discriminate].
    destruct (due td (now s)); [|discriminate]. injection E as <-.
    apply toast_setVisible_false_hidden in Hv'. simpl in Hv'. congruence.
  - destruct (Transition.finish _ _ _) as [[t cs]|]; [|discriminate].
    injection E as <-. simpl in Hv'. congruence.
  - destruct (0 <=? dt); [|discriminate]. injection E as <-.
    simpl in Hv'. congruence.
  - destruct (mounted s); [|discriminate]. injection E as <-.
    destruct (timeout_current s); simpl in Hv'; congruence.
Qed.

Lemma toast_disarmed_step v s e s' :
  reachable s -> visible_of (props s) = v -> toast_keeps_visible v e ->
  toast_disarmed s -> step s e = Some s' ->
  visible_of (props s') = v /\ toast_disarmed s'.
Proof.
  intros Hr Hp He Hd E.
  destruct (toast_step_timers s e s' (toast_reachable_single s Hr)
              (toast_reachable_consistent s Hr) E) as (_ & Hp' & Hcase).
  split.
  - destruct Hp' as [-> | ->]; [exact Hp | exact He].
  - intros Hv'. destruct Hcase as [(Hv & Hsub) | (Hv & _)].
    + apply map_empty. intros id.
      destruct (timers s' !! id) as [td|] eqn:Hl; [|reflexivity].
      apply Hsub in Hl. rewrite (Hd (eq_trans (eq_sym Hv) Hv')), lookup_empty in Hl.
      discriminate.
    + destruct (_visible s) eqn:Hv0; [congruence|].
      destruct (toast_step_shows s e s' E Hv0 Hv') as (p & -> & Hne).
      simpl in He. congruence.
Qed.

Lemma toast_disarmed_run v es : forall s s',
  reachable s -> visible_of (props s) = v -> Forall (toast_keeps_visible v) es ->
  toast_disarmed s -> run s es = Some s' -> toast_disarmed s'.
Proof.
  induction es as [|e es IH]; intros s s' Hr Hp He Hd E; simpl in E.
  - injection E as <-. exact Hd.
  - destruct (step s e) as [s1|] eqn:E1; [|discriminate].
    apply Forall_cons in He as [He1 He].
    destruct (toast_disarmed_step v s e s1 Hr Hp He1 Hd E1) as [Hp1 Hd1].
    exact (IH s1 s' (reach_step s e s1 Hr E1) Hp1 He Hd1 E).
Qed.

End MouseEnter.

(** ** C9 *)

(** C9, as stated, fails for a toast whose caller passes [onMouseEnter]: the
    mouseenter runs the caller's handler, the timer set at the mount stays
    pending, and after 5000 ms it fires on the toast that is still visible. *)
Lemma toast_mouseenter_still_autohides :
  ~ toast_mouseenter_ends_autohide toast_own_mouseenter.
Proof.
  intros H.
  assert (exists s2 s3,
            Toast.run toast_own_mouseenter [Toast.Advance 5000] = Some s2
            /\ Toast.step s2 (Toast.TimerFire 1%nat) = Some s3
            /\ Toast._visible s2 = true) as (s2 & s3 & H1 & H2 & H3).
  { eexists. eexists. split; [vm_compute; reflexivity|].
    split; [vm_compute; reflexivity | reflexivity]. }
  specialize (H eq_refl eq_refl
                toast_own_mouseenter [Toast.Advance 5000] s2 1%nat s3 eq_refl).
  rewrite H in H3; [discriminate H3 | repeat constructor | exact H1 | exact H2].
Qed.

(** C9 (amended).  On a visible toast whose caller passes no [onMouseEnter]
    attribute, a mouseenter cancels the pending timer and a mouseleave sets
    none; from then on, as long as no render changes the [visible] prop, a
    timer that fires finds the toast already hidden: the toast is not hidden
    by a timer again.  When the caller passes an [onMouseEnter] attribute, the
    mouseenter and the mouseleave leave the state as it is, pending timer
    included. *)
Theorem mouse_enter_ends_autohide s :
  Toast.reachable s -> Toast.mounted s = true -> Toast._visible s = true ->
  (Toast.rest (Toast.props s) !! "onMouseEnter" = None ->
   exists s1,
     Toast.step s Toast.MouseEnter = Some s1
     /\ Toast.timers s1 = ∅
     /\ Toast._visible s1 = true
     /\ Toast.step s1 Toast.MouseLeave = Some s1
     /\ forall es s2 id s3,
          Forall (toast_keeps_visible (Toast.visible_of (Toast.props s))) es ->
          Toast.run s1 es = Some s2 ->
          Toast.step s2 (Toast.TimerFire id) = Some s3 ->
          Toast._visible s2 = false /\ Toast._visible s3 = false)
  /\ (is_Some (Toast.rest (Toast.props s) !! "onMouseEnter") ->
      Toast.step s Toast.MouseEnter = Some s
      /\ Toast.step s Toast.MouseLeave = Some s).
Proof.
  intros Hr Hm Hv.
  pose proof (toast_reachable_consistent s Hr) as Hc.
  pose proof (toast_visible_rendered s Hc Hv) as Hrd.
  split.
  - intros Hrest.
    assert (Toast.step s Toast.MouseEnter
            = Some (Toast.clearTimeout (Toast.timeout_current s) s)) as E1.
    { simpl. rewrite Hm, Hrd. unfold Toast.mouseenter. rewrite Hrest. reflexivity. }
    set (s1 := Toast.clearTimeout (Toast.timeout_current s) s) in *.
    assert (Toast.timers s1 = ∅) as Ht1
      by exact (toast_clearTimeout_none s (toast_reachable_single s Hr)).
    assert (Toast._visible s1 = Toast._visible s /\ Toast.mounted s1 = Toast.mounted s
            /\ Toast.rendered s1 = Toast.rendered s /\ Toast.props s1 = Toast.props s)
      as (Hv1 & Hm1 & Hrd1 & Hp1)
      by (subst s1; destruct (Toast.timeout_current s); repeat split; reflexivity).
    exists s1. split; [exact E1|]. split; [exact Ht1|]. split; [congruence|].
    split; [simpl; rewrite Hm1, Hrd1, Hm, Hrd; reflexivity|].
    intros es s2 id s3 He Hrun E.
    pose proof (Toast.reach_step s _ s1 Hr E1) as Hr1.
    assert (toast_disarmed s2) as Hd2.
    { apply (toast_disarmed_run (Toast.visible_of (Toast.props s)) es s1 s2 Hr1);
        [rewrite Hp1; reflexivity | exact He | intros _; exact Ht1 | exact Hrun]. }
    simpl in E. destruct (Toast.timers s2 !! id) as [td|] eqn:Hl; [|discriminate].
    destruct (Toast.due td (Toast.now s2)); [|discriminate]. injection E as <-.
    assert (Toast._visible s2 = false) as Hv2.
    { destruct (Toast._visible s2) eqn:Hv2; [|reflexivity].
      rewrite (Hd2 Hv2), lookup_empty in Hl. discriminate. }
    split; [exact Hv2|].
    match goal with |- Toast._visible ?x = false =>
      destruct (Toast._visible x) eqn:Hv3; [|reflexivity] end.
    apply toast_setVisible_false_hidden in Hv3. simpl in Hv3. congruence.
  - intros [h Hrest]. simpl. rewrite Hm, Hrd. unfold Toast.mouseenter.
    rewrite Hrest. split; reflexivity.
Qed.

(** The mouse enters and leaves the toast that was mounted visible. *)
Lemma mouse_enter_witness :
  exists s1,
    Toast.step toast_shown Toast.MouseEnter = Some s1
    /\ Toast.timers s1 = ∅
    /\ Toast.step s1 Toast.MouseLeave = Some s1.
Proof.
  destruct (proj1 (mouse_enter_ends_autohide toast_shown
                     (Toast.reach_mount _ 0) eq_refl eq_refl) eq_refl)
    as (s1 & H1 & H2 & _ & H3 & _).
  exists s1. split; [exact H1|]. split; [exact H2 | exact H3].
Defined.

(** ** C10 *)

(** C10.  With [visible] omitted an alert mounts visible and rendered, a toast
    mounts hidden and not rendered.  An omitted [autohide], [delay] and
    [animation] of a toast stand for true, 5000 and true: the timer set on
    mount has delay 5000 and the class name carries [fade]. *)
Theorem default_props :
  (forall p t0,
     Alert.visible p = None ->
     Alert.visible_of p = true
     /\ Alert._visible (Alert.mount p t0) = true
     /\ Alert.rendered (Alert.mount p t0) = true)
  /\ (forall p t0,
        Toast.visible p = None ->
        Toast.visible_of p = false
        /\ Toast._visible (Toast.mount p t0) = false
        /\ Toast.rendered (Toast.mount p t0) = false)
  /\ (forall p,
        (Toast.autohide p = None -> Toast.autohide_of p = true)
        /\ (Toast.delay p = None -> Toast.delay_of p = 5000)
        /\ (Toast.animation p = None -> Toast.animation_of p = true))
  /\ (forall p t0,
        Toast.visible p = None -> Toast.autohide p = None -> Toast.delay p = None ->
        Toast.timers (Toast.mount p t0) = {[ 0%nat := (t0, 5000) ]})
  /\ (forall p,
        Toast.animation p = None -> Toast.color p = None -> Toast.className p = None ->
        Toast._className p = "toast fade").
Proof.
  split; [|split; [|split; [|split]]].
  - intros p t0 Hv. unfold Alert.mount, Alert.visible_of. rewrite Hv.
    repeat split; reflexivity.
  - intros p t0 Hv. unfold Toast.mount, Toast.visible_of, Toast._autohide.
    rewrite Hv. destruct (Toast.autohide_of p); repeat split; reflexivity.
  - intros p. unfold Toast.autohide_of, Toast.delay_of, Toast.animation_of.
    repeat split; intros ->; reflexivity.
  - intros p t0 Hv Ha Hd.
    unfold Toast.mount, Toast.visible_of, Toast._autohide, Toast.autohide_of,
      Toast.delay_of.
    rewrite Hv, Ha, Hd. reflexivity.
  - intros p Ha Hc Hn.
    unfold Toast._className, Toast.animation_of, Toast.truthy_color.
    rewrite Ha, Hc, Hn. reflexivity.
Qed.

(** The sample toast and alert leave [visible] out. *)
Lemma default_props_witness :
  Alert._visible (Alert.mount alert_demo 0) = true
  /\ Toast._visible (Toast.mount toast_demo 0) = false
  /\ Toast.timers (Toast.mount toast_demo 0) = {[ 0%nat := (0, 5000) ]}.
Proof.
  split; [|split].
  - refine (proj1 (proj2 (proj1 default_props alert_demo 0 _))). reflexivity.
  - refine (proj1 (proj2 (proj1 (proj2 default_props) toast_demo 0 _))). reflexivity.
  - refine (proj1 (proj2 (proj2 (proj2 default_props))) toast_demo 0 _ _ _);
      reflexivity.
Defined.

(** * Further properties of CToast and CAlert *)

(** ** Vocabulary *)

(** The render keeps [autohide] off. *)
Definition toast_no_autohide (e : Toast.event) : Prop :=
  match e with
  | Toast.SetProps p => Toast.autohide_of p = false
  | _ => True
  end.

(** The render keeps [onShow] and [onClose] at [f] and [g]. *)
Definition toast_keeps_callbacks (f g : callback) (e : Toast.event) : Prop :=
  match e with
  | Toast.SetProps p => Toast.onShow p = Some f /\ Toast.onClose p = Some g
  | _ => True
  end.

(** The render keeps the alert without a close button. *)
Definition alert_not_dismissible (e : Alert.event) : Prop :=
  match e with
  | Alert.SetProps p => Alert.dismissible_of p = false
  | _ => True
  end.

(** How often the log holds a call of [f]. *)
Fixpoint calls_of (f : callback) (l : list call) : nat :=
  match l with
  | [] => 0%nat
  | Call f' _ :: l' => ((if bool_decide (f' = f) then 1 else 0) + calls_of f l')%nat
  end.

(** A toast with [autohide] switched off. *)
Definition toast_manual : Toast.CToastProps :=
  {| Toast.children := [Text "Saved"]; Toast.animation := None;
     Toast.autohide := Some false; Toast.className := None; Toast.color := None;
     Toast.delay := None; Toast.index := None; Toast.key := None;
     Toast.visible := Some true; Toast.onClose := Some 2%nat;
     Toast.onShow := Some 1%nat; Toast.attrs := ∅ |}.

(** An alert without a close button. *)
Definition alert_plain : Alert.CAlertProps :=
  {| Alert.children := [Text "Saved"]; Alert.className := Some "mb-0";
     Alert.color := Some "danger"; Alert.dismissible := None;
     Alert.onClose := Some 7%nat; Alert.variant := Some "solid";
     Alert.visible := None; Alert.attrs := {["role" := VStr "status"]} |}.

(** ** A toast without auto-hide *)

Section ToastManual.

Import Toast.

Lemma toast_setVisible_no_autohide b s :
  autohide_of (props s) = false ->
  timers (setVisible b s) = timers s
  /\ timeout_current (setVisible b s) = timeout_current s
  /\ props (setVisible b s) = props s.
Proof.
  intros Ha. unfold setVisible. destruct (mounted s); [|auto].
  case_bool_decide; [auto|].
  match goal with |- context [commit ?x] => set (s1 := x) end.
  destruct (toast_commit_fields s1) as (Hp & _ & Ht & Hc & _).
  unfold _autohide. rewrite Ha. rewrite Hp, Ht, Hc. auto.
Qed.

Lemma toast_no_autohide_step s e s' :
  autohide_of (props s) = false -> toast_no_autohide e ->
  timers s = ∅ -> timeout_current s = None -> step s e = Some s' ->
  autohide_of (props s') = false /\ timers s' = ∅ /\ timeout_current s' = None.
Proof.
  intros Ha He Ht Hc E. destruct e; simpl in E.
  - destruct (mounted s); [|discriminate]. injection E as <-.
    destruct (toast_commit_fields (set_props p s)) as (Hp & _ & Ht' & Hc' & _).
    simpl in He. case_bool_decide.
    + rewrite Hp, Ht', Hc'. auto.
    + destruct (toast_setVisible_no_autohide (visible_of p) (commit (set_props p s)))
        as (E1 & E2 & E3); [rewrite Hp; exact He|].
      rewrite E1, E2, E3, Hp, Ht', Hc'. auto.
  - destruct (mounted s && rendered s); [|discriminate]. injection E as <-.
    destruct (toast_setVisible_no_autohide false s Ha) as (E1 & E2 & E3).
    rewrite E1, E2, E3. auto.
  - destruct (mounted s && rendered s); [|discriminate]. injection E as <-.
    destruct (toast_mouseenter_cases s) as [[_ ->] | [_ ->]]; [|auto].
    rewrite Hc. auto.
  - destruct (mounted s && rendered s); [|discriminate]. injection E as <-. auto.
  - rewrite Ht, lookup_empty in E. discriminate.
  - destruct (Transition.finish _ _ _) as [[t cs]|]; [|discriminate].
    injection E as <-. auto.
  - destruct (0 <=? dt); [|discriminate]. injection E as <-. auto.
  - destruct (mounted s); [|discriminate]. injection E as <-.
    rewrite Hc. auto.
Qed.

Lemma toast_no_autohide_run es : forall s s',
  autohide_of (props s) = false -> Forall toast_no_autohide es ->
  timers s = ∅ -> timeout_current s = None -> run s es = Some s' ->
  timers s' = ∅ /\ timeout_current s' = None.
Proof.
  induction es as [|e es IH]; intros s s' Ha He Ht Hc E; simpl in E.
  - injection E as <-. auto.
  - destruct (step s e) as [s1|] eqn:E1; [|discriminate].
    apply Forall_cons in He as [He1 He].
    destruct (toast_no_autohide_step s e s1 Ha He1 Ht Hc E1) as (Ha1 & Ht1 & Hc1).
    exact (IH s1 s' Ha1 He Ht1 Hc1 E).
Qed.

End ToastManual.

(** X1.  A toast mounted with [autohide = false], and never rendered with
    another value, sets no timer at all: in every state it reaches no timer is
    pending, [timeout.current] is still undefined, and no timer event can
    hide it. *)
Theorem toast_without_autohide_sets_no_timer p t0 es s :
  Toast.autohide_of p = false -> Forall toast_no_autohide es ->
  Toast.run (Toast.mount p t0) es = Some s ->
  Toast.timers s = ∅ /\ Toast.timeout_current s = None
  /\ forall id, Toast.step s (Toast.TimerFire id) = None.
Proof.
  intros Ha He E.
  assert (Toast.timers (Toast.mount p t0) = ∅
          /\ Toast.timeout_current (Toast.mount p t0) = None
          /\ Toast.props (Toast.mount p t0) = p) as (Ht0 & Hc0 & Hp0).
  { unfold Toast.mount, Toast._autohide. rewrite Ha.
    match goal with |- context [Toast.setVisible _ ?x] => set (s0 := x) end.
    destruct (toast_setVisible_no_autohide (Toast.visible_of p) s0 Ha)
      as (E1 & E2 & E3).
    rewrite E1, E2, E3. auto. }
  destruct (toast_no_autohide_run es (Toast.mount p t0) s) as [Ht Hc]; auto.
  { rewrite Hp0. exact Ha. }
  split; [exact Ht|]. split; [exact Hc|].
  intros id. simpl. rewrite Ht, lookup_empty. reflexivity.
Qed.

(** The manual toast, shown for ten seconds. *)
Lemma toast_without_autohide_witness :
  exists s,
    Toast.run (Toast.mount toast_manual 0) [Toast.Advance 10000] = Some s
    /\ Toast._visible s = true /\ Toast.timers s = ∅.
Proof.
  eexists. split; [reflexivity|]. split; [reflexivity|].
  refine (proj1 (toast_without_autohide_sets_no_timer toast_manual 0
                   [Toast.Advance 10000] _ _ _ _)).
  - reflexivity.
  - repeat constructor.
  - reflexivity.
Defined.

(** ** Timers that outlive their purpose *)

Section ToastStaleTimers.

Import Toast.

Lemma toast_advance_fields s dt sA :
  step s (Advance dt) = Some sA ->
  props sA = props s /\ _visible sA = _visible s /\ timers sA = timers s
  /\ timeout_current sA = timeout_current s /\ transition sA = transition s
  /\ log sA = log s /\ mounted sA = mounted s /\ now sA = now s + dt.
Proof.
  simpl. destruct (0 <=? dt); [|discriminate]. intros [= <-].
  repeat split; reflexivity.
Qed.

Lemma toast_setVisible_same b s : _visible s = b -> setVisible b s = s.
Proof.
  intros Hv. unfold setVisible. destruct (mounted s); [|reflexivity].
  rewrite bool_decide_eq_true_2 by exact Hv. reflexivity.
Qed.

Lemma toast_delete_pending s id :
  toast_single_timer s -> is_Some (timers s !! id) -> delete id (timers s) = ∅.
Proof.
  intros Hs Hid. pose proof (toast_clearTimeout_none s Hs) as Hn.
  rewrite (Hs id Hid) in Hn. exact Hn.
Qed.

End ToastStaleTimers.

(** X2.  Rendering a visible toast with [autohide = false] does not cancel the
    timer that is already pending ([_autohide] reads the flag only when it
    sets a timer): the timer stays, fires when its delay has passed and hides
    the toast; after that no timer is left. *)
Theorem toast_autohide_off_keeps_pending_timer s p id td :
  Toast.reachable s -> Toast.mounted s = true -> Toast._visible s = true ->
  Toast.timers s !! id = Some td ->
  Toast.autohide_of p = false ->
  Toast.visible_of p = Toast.visible_of (Toast.props s) ->
  exists s1,
    Toast.step s (Toast.SetProps p) = Some s1
    /\ Toast.timers s1 !! id = Some td
    /\ forall dt, 0 <= dt -> fst td + Z.max 0 (snd td) <= Toast.now s + dt ->
         exists s2,
           Toast.run s1 [Toast.Advance dt; Toast.TimerFire id] = Some s2
           /\ Toast._visible s2 = false
           /\ Toast.timers s2 = ∅.
Proof.
  intros Hr Hm Hv Hid Ha Hp.
  pose proof (toast_reachable_consistent s Hr) as Hc.
  pose proof (toast_reachable_single s Hr) as Hs.
  exists (Toast.set_props p s). split; [|split; [exact Hid|]].
  { rewrite (toast_step_SetProps s p Hc Hm).
    rewrite bool_decide_eq_true_2 by exact Hp. reflexivity. }
  intros dt H0 Hdue. destruct td as [t d]. simpl in Hdue.
  destruct (toast_timer_fires (Toast.set_props p s) id t d dt Hid H0 Hdue)
    as (sA & HA & HmA & Hrun).
  destruct (toast_advance_fields _ _ _ HA) as (HpA & HvA & HtA & _).
  eexists. split; [exact Hrun|]. split.
  - apply toast_setVisible_value. simpl. rewrite HmA. exact Hm.
  - destruct (toast_setVisible_no_autohide false
                (Toast.set_timers (delete id (Toast.timers sA)) sA)) as (E & _).
    { simpl. rewrite HpA. exact Ha. }
    rewrite E. simpl. rewrite HtA. simpl.
    apply (toast_delete_pending s id Hs). rewrite Hid. eauto.
Qed.

(** The visible sample toast, re-rendered with [autohide = false] at time 0. *)
Lemma toast_autohide_off_witness :
  exists s1,
    Toast.step toast_shown (Toast.SetProps toast_manual) = Some s1
    /\ Toast.timers s1 !! 1%nat = Some (0, 5000).
Proof.
  destruct (toast_autohide_off_keeps_pending_timer toast_shown toast_manual
              1%nat (0, 5000)) as (s1 & H1 & H2 & _).
  - apply Toast.reach_mount.
  - reflexivity.
  - reflexivity.
  - reflexivity.
  - reflexivity.
  - reflexivity.
  - exists s1. split; [exact H1 | exact H2].
Defined.

(** X3.  Closing a visible toast with [autohide] sets a timer again although
    the toast is now hidden (the effect runs on every change of [_visible]).
    When that timer fires it calls nothing and changes neither visibility nor
    the transition; it is just gone. *)
Theorem toast_hide_sets_harmless_timer s :
  Toast.reachable s -> Toast.mounted s = true -> Toast._visible s = true ->
  Toast.autohide_of (Toast.props s) = true ->
  exists s1,
    Toast.step s Toast.Close = Some s1
    /\ Toast._visible s1 = false
    /\ Toast.timers s1
       = {[ Toast.next_id s := (Toast.now s, Toast.delay_of (Toast.props s)) ]}
    /\ forall dt, 0 <= dt -> Z.max 0 (Toast.delay_of (Toast.props s)) <= dt ->
         exists s2,
           Toast.run s1 [Toast.Advance dt; Toast.TimerFire (Toast.next_id s)] = Some s2
           /\ Toast.log s2 = Toast.log s1
           /\ Toast._visible s2 = false
           /\ Toast.transition s2 = Toast.transition s1
           /\ Toast.timers s2 = ∅.
Proof.
  intros Hr Hm Hv Ha.
  pose proof (toast_reachable_consistent s Hr) as Hc.
  pose proof (toast_reachable_single s Hr) as Hs.
  pose proof (toast_setVisible_value false s Hm) as Hv1.
  destruct (toast_setVisible_timers false s Hs)
    as (_ & Hn1 & _ & [E | (_ & _ & _ & Ht)]).
  { rewrite E in Hv1. congruence. }
  destruct (Ht Ha) as [Htm _].
  exists (Toast.setVisible false s).
  split; [simpl; rewrite Hm, (toast_visible_rendered s Hc Hv); reflexivity|].
  split; [exact Hv1|]. split; [exact Htm|].
  intros dt H0 Hd.
  destruct (toast_timer_fires (Toast.setVisible false s) (Toast.next_id s)
              (Toast.now s) (Toast.delay_of (Toast.props s)) dt)
    as (sA & HA & _ & Hrun); [rewrite Htm; apply lookup_singleton_eq | lia | lia |].
  destruct (toast_advance_fields _ _ _ HA) as (_ & HvA & HtA & _ & HtrA & HlA & _).
  rewrite (toast_setVisible_same false
             (Toast.set_timers (delete (Toast.next_id s) (Toast.timers sA)) sA))
    in Hrun by (change (Toast._visible sA = false); rewrite HvA; exact Hv1).
  eexists. split; [exact Hrun|]. simpl.
  split; [exact HlA|]. split; [rewrite HvA; exact Hv1|]. split; [exact HtrA|].
  rewrite HtA, Htm. apply delete_singleton_eq.
Qed.

(** The visible sample toast, closed by its close button at time 0. *)
Lemma toast_hide_sets_timer_witness :
  exists s1,
    Toast.step toast_shown Toast.Close = Some s1
    /\ Toast._visible s1 = false
    /\ Toast.timers s1 = {[ 2%nat := (0, 5000) ]}.
Proof.
  destruct (toast_hide_sets_harmless_timer toast_shown) as (s1 & H1 & H2 & H3 & _).
  - apply Toast.reach_mount.
  - reflexivity.
  - reflexivity.
  - reflexivity.
  - exists s1. split; [exact H1|]. split; [exact H2 | exact H3].
Defined.

(** ** Which step calls which callback *)

Section ToastCalls.

Import Toast.

Lemma toast_autohide_log p s :
  log (_autohide p s) = log s /\ transition (_autohide p s) = transition s.
Proof.
  unfold _autohide. destruct (autohide_of p); [|auto].
  destruct (timeout_current s); auto.
Qed.

Lemma toast_commit_log s :
  log (commit s) = log s
  \/ (Transition.st (transition (commit s)) = Transition.ENTERING
      /\ log (commit s) = log s ++ onEnter (props s)).
Proof.
  destruct s as [p v tc tm nid [x nc] lg nw mt]. unfold commit; simpl.
  destruct v, x; simpl; rewrite ?app_nil_r; auto.
Qed.

Lemma toast_setVisible_log b s :
  props (setVisible b s) = props s
  /\ (log (setVisible b s) = log s
      \/ (Transition.st (transition (setVisible b s)) = Transition.ENTERING
          /\ log (setVisible b s) = log s ++ onEnter (props s))).
Proof.
  unfold setVisible. destruct (mounted s); [|auto].
  case_bool_decide; [auto|].
  match goal with |- context [commit ?x] => set (s1 := x) end.
  destruct (toast_autohide_fields (props s) (commit s1)) as (Hp & _).
  destruct (toast_autohide_log (props s) (commit s1)) as (Hl & Ht).
  destruct (toast_commit_fields s1) as (Hp1 & _).
  rewrite Hp, Hl, Ht, Hp1. split; [reflexivity|].
  exact (toast_commit_log s1).
Qed.

End ToastCalls.

(** X4.  One step of a toast adds at most one call to the log, and only of a
    callback the current props supply, with the index or null: [onShow] by a
    step that starts the enter transition, [onClose] by the end of an exit
    transition, which leaves the toast unmounted.  Nothing else is ever
    called. *)
Theorem toast_calls_only_supplied_callbacks s e s' :
  Toast.reachable s -> Toast.step s e = Some s' ->
  Toast.log s' = Toast.log s
  \/ (exists f,
        Toast.onShow (Toast.props s') = Some f
        /\ Transition.st (Toast.transition s') = Transition.ENTERING
        /\ Toast.log s' = Toast.log s ++ [Call f (Toast.index_arg (Toast.props s'))])
  \/ (exists g,
        Toast.onClose (Toast.props s') = Some g
        /\ e = Toast.TransitionEnd
        /\ Transition.st (Toast.transition s') = Transition.UNMOUNTED
        /\ Toast.log s' = Toast.log s ++ [Call g (Toast.index_arg (Toast.props s'))]).
Proof.
  intros Hr E.
  pose proof (toast_reachable_consistent s Hr) as Hc.
  assert (forall b s0, Toast.log s0 = Toast.log s ->
    Toast.log (Toast.setVisible b s0) = Toast.log s
    \/ (exists f,
          Toast.onShow (Toast.props (Toast.setVisible b s0)) = Some f
          /\ Transition.st (Toast.transition (Toast.setVisible b s0)) = Transition.ENTERING
          /\ Toast.log (Toast.setVisible b s0)
             = Toast.log s ++ [Call f (Toast.index_arg (Toast.props (Toast.setVisible b s0)))])
    \/ (exists g,
          Toast.onClose (Toast.props (Toast.setVisible b s0)) = Some g
          /\ e = Toast.TransitionEnd
          /\ Transition.st (Toast.transition (Toast.setVisible b s0)) = Transition.UNMOUNTED
          /\ Toast.log (Toast.setVisible b s0)
             = Toast.log s ++ [Call g (Toast.index_arg (Toast.props (Toast.setVisible b s0)))]))
    as Hset.
  { intros b s0 Hl0.
    destruct (toast_setVisible_log b s0) as (Hp & [Hl | (Hst & Hl)]).
    - left. congruence.
    - rewrite Hp, Hl, Hl0. unfold Toast.onEnter.
      destruct (Toast.onShow (Toast.props s0)) as [f|].
      + right. left. exists f. auto.
      + left. apply app_nil_r. }
  destruct e; simpl in E.
  - destruct (Toast.mounted s); [|discriminate]. injection E as <-.
    rewrite (toast_render_same p s Hc).
    case_bool_decide; [left; reflexivity|]. apply Hset. reflexivity.
  - destruct (Toast.mounted s && Toast.rendered s); [|discriminate].
    injection E as <-. apply Hset. reflexivity.
  - destruct (Toast.mounted s && Toast.rendered s); [|discriminate].
    injection E as <-. left.
    destruct (toast_mouseenter_cases s) as [[_ ->] | [_ ->]]; [|reflexivity].
    destruct (Toast.timeout_current s); reflexivity.
  - destruct (Toast.mounted s && Toast.rendered s); [|discriminate].
    injection E as <-. left. reflexivity.
  - destruct (Toast.timers s !! id) as [td|]; [|discriminate].
    destruct (Toast.due td (Toast.now s)); [|discriminate].
    injection E as <-. apply Hset. reflexivity.
  - destruct s as [p v tc tm nid [x nc] lg nw mt]. unfold Transition.finish in E.
    simpl in E. destruct nc as [d|]; [|discriminate].
    destruct (d <=? nw); [|discriminate].
    destruct x; try discriminate E; injection E as <-; simpl.
    + left. apply app_nil_r.
    + unfold Toast.onExited. destruct (Toast.onClose p) as [g|]; simpl.
      * right. right. exists g. auto.
      * left. apply app_nil_r.
  - destruct (0 <=? dt); [|discriminate]. injection E as <-. left. reflexivity.
  - destruct (Toast.mounted s); [|discriminate]. injection E as <-.
    left. destruct (Toast.timeout_current s); reflexivity.
Qed.

(** The parent shows the sample toast, mounted hidden. *)
Lemma toast_calls_witness :
  exists s',
    Toast.step (Toast.mount toast_demo 0)
      (Toast.SetProps (Toast.with_visible true toast_demo)) = Some s'
    /\ (Toast.log s' = []
        \/ (exists f,
              Toast.onShow (Toast.props s') = Some f
              /\ Transition.st (Toast.transition s') = Transition.ENTERING
              /\ Toast.log s' = [] ++ [Call f (Toast.index_arg (Toast.props s'))])
        \/ (exists g,
              Toast.onClose (Toast.props s') = Some g
              /\ Toast.SetProps (Toast.with_visible true toast_demo)
                 = Toast.TransitionEnd
              /\ Transition.st (Toast.transition s') = Transition.UNMOUNTED
              /\ Toast.log s' = [] ++ [Call g (Toast.index_arg (Toast.props s'))])).
Proof.
  eexists. split; [reflexivity|].
  refine (toast_calls_only_supplied_callbacks (Toast.mount toast_demo 0) _ _ _ _).
  - apply Toast.reach_mount.
  - reflexivity.
Defined.

Section AlertCalls.

Import Alert.

Lemma alert_commit_log s :
  log (commit s) = log s
  \/ (Transition.st (transition (commit s)) = Transition.EXITING
      /\ log (commit s) = log s ++ on_lifecycle (props s) Transition.onExit).
Proof.
  destruct s as [p v [x nc] lg nw mt]. unfold commit; simpl.
  destruct v, x; simpl; rewrite ?app_nil_r; auto.
Qed.

Lemma alert_setVisible_log b s :
  props (setVisible b s) = props s
  /\ (log (setVisible b s) = log s
      \/ (Transition.st (transition (setVisible b s)) = Transition.EXITING
          /\ log (setVisible b s) = log s ++ on_lifecycle (props s) Transition.onExit)).
Proof.
  destruct (alert_setVisible_fields b s) as (Hp & _).
  split; [exact Hp|].
  unfold setVisible. destruct (mounted s); [|auto].
  case_bool_decide; [auto|].
  match goal with |- context [commit ?x] => exact (alert_commit_log x) end.
Qed.

End AlertCalls.

(** X5.  One step of an alert adds at most one call to the log: [onClose],
    when the current props supply it, called with the node by a step that
    starts the exit transition.  The end of a transition calls nothing. *)
Theorem alert_calls_only_onClose_at_exit s e s' :
  Alert.reachable s -> Alert.step s e = Some s' ->
  Alert.log s' = Alert.log s
  \/ (exists f,
        Alert.onClose (Alert.props s') = Some f
        /\ e <> Alert.TransitionEnd
        /\ Transition.st (Alert.transition s') = Transition.EXITING
        /\ Alert.log s' = Alert.log s ++ [Call f ANode]).
Proof.
  intros Hr E.
  pose proof (alert_reachable_consistent s Hr) as Hc.
  assert (forall b s0, Alert.log s0 = Alert.log s -> e <> Alert.TransitionEnd ->
    Alert.log (Alert.setVisible b s0) = Alert.log s
    \/ (exists f,
          Alert.onClose (Alert.props (Alert.setVisible b s0)) = Some f
          /\ e <> Alert.TransitionEnd
          /\ Transition.st (Alert.transition (Alert.setVisible b s0)) = Transition.EXITING
          /\ Alert.log (Alert.setVisible b s0) = Alert.log s ++ [Call f ANode]))
    as Hset.
  { intros b s0 Hl0 He.
    destruct (alert_setVisible_log b s0) as (Hp & [Hl | (Hst & Hl)]).
    - left. congruence.
    - rewrite Hp, Hl, Hl0. simpl.
      destruct (Alert.onClose (Alert.props s0)) as [f|].
      + right. exists f. auto.
      + left. apply app_nil_r. }
  destruct e; simpl in E.
  - destruct (Alert.mounted s); [|discriminate]. injection E as <-.
    rewrite (alert_commit_same (Alert.set_props p s) Hc).
    case_bool_decide; [left; reflexivity|]. apply Hset; [reflexivity | discriminate].
  - destruct (Alert.mounted s && Alert.rendered s && Alert.dismissible_of _);
      [|discriminate].
    injection E as <-. apply Hset; [reflexivity | discriminate].
  - destruct s as [p v [x nc] lg nw mt]. unfold Transition.finish in E.
    simpl in E. destruct nc as [d|]; [|discriminate].
    destruct (d <=? nw); [|discriminate].
    destruct x; try discriminate E; injection E as <-; simpl;
      left; apply app_nil_r.
  - destruct (0 <=? dt); [|discriminate]. injection E as <-. left. reflexivity.
  - destruct (Alert.mounted s); [|discriminate]. injection E as <-. left. reflexivity.
Qed.

(** The close button of the sample alert. *)
Lemma alert_calls_witness :
  exists s',
    Alert.step alert_shown Alert.Close = Some s'
    /\ (Alert.log s' = []
        \/ (exists f,
              Alert.onClose (Alert.props s') = Some f
              /\ Alert.Close <> Alert.TransitionEnd
              /\ Transition.st (Alert.transition s') = Transition.EXITING
              /\ Alert.log s' = [] ++ [Call f ANode])).
Proof.
  eexists. split; [reflexivity|].
  refine (alert_calls_only_onClose_at_exit alert_shown _ _ _ _).
  - apply Alert.reach_mount.
  - reflexivity.
Defined.

(** ** After the unmount *)

Section ToastUnmounted.

Import Toast.

(** Once the component is unmounted [Transition] has no timeout pending. *)
Lemma toast_unmounted_no_callback s :
  reachable s -> mounted s = false ->
  Transition.nextCallback (transition s) = None.
Proof.
  induction 1 as [p t0 | s e s' Hr IH E].
  - rewrite toast_mount_mounted. discriminate.
  - pose proof (toast_reachable_single s Hr) as Hs.
    pose proof (toast_reachable_consistent s Hr) as Hc.
    intros Hm'. destruct (mounted s) eqn:Hm.
    + destruct e; simpl in E; rewrite ?Hm in E; simpl in E.
      * injection E as <-. rewrite (toast_render_same p s Hc) in Hm'.
        case_bool_decide; simpl in Hm'; [congruence|].
        destruct (toast_setVisible_timers (visible_of p) (set_props p s) Hs)
          as (_ & _ & Hx & _). simpl in Hx. congruence.
      * destruct (rendered s); [|discriminate]. injection E as <-.
        destruct (toast_setVisible_timers false s Hs) as (_ & _ & Hx & _). congruence.
      * destruct (rendered s); [|discriminate]. injection E as <-.
        destruct (toast_mouseenter_cases s) as [[_ Hx] | [_ Hx]];
          rewrite Hx in Hm'; [|congruence].
        destruct (timeout_current s); simpl in Hm'; congruence.
      * destruct (rendered s); [|discriminate]. injection E as <-.
        unfold mouseleave in Hm'. congruence.
      * destruct (timers s !! id) as [td|]; [|discriminate].
        destruct (due td (now s)); [|discriminate]. injection E as <-.
        destruct (toast_setVisible_timers false _ (toast_delete_single id s Hs))
          as (_ & _ & Hx & _). simpl in Hx. congruence.
      * destruct (Transition.finish _ _ _) as [[t cs]|]; [|discriminate].
        injection E as <-. simpl in Hm'. congruence.
      * destruct (0 <=? dt); [|discriminate]. injection E as <-.
        simpl in Hm'. congruence.
      * injection E as <-. destruct (timeout_current s); reflexivity.
    + specialize (IH eq_refl).
      destruct e; simpl in E; rewrite ?Hm in E; simpl in E; try discriminate E.
      * rewrite (toast_unmounted_no_timers s Hr Hm), lookup_empty in E. discriminate.
      * unfold Transition.finish in E. rewrite IH in E. discriminate.
      * destruct (0 <=? dt); [|discriminate]. injection E as <-. exact IH.
Qed.

Lemma toast_unmounted_step s e s' :
  reachable s -> mounted s = false -> step s e = Some s' ->
  (exists dt, e = Advance dt)
  /\ mounted s' = false /\ log s' = log s /\ _visible s' = _visible s
  /\ props s' = props s /\ transition s' = transition s.
Proof.
  intros Hr Hm E.
  destruct e; simpl in E; rewrite ?Hm in E; simpl in E; try discriminate E.
  - rewrite (toast_unmounted_no_timers s Hr Hm), lookup_empty in E. discriminate.
  - unfold Transition.finish in E.
    rewrite (toast_unmounted_no_callback s Hr Hm) in E. discriminate.
  - destruct (0 <=? dt); [|discriminate]. injection E as <-. simpl. eauto 10.
Qed.

Lemma toast_unmounted_run es : forall s s',
  reachable s -> mounted s = false -> run s es = Some s' ->
  Forall (fun e => exists dt, e = Advance dt) es
  /\ log s' = log s /\ _visible s' = _visible s
  /\ props s' = props s /\ transition s' = transition s /\ timers s' = ∅.
Proof.
  induction es as [|e es IH]; intros s s' Hr Hm E; simpl in E.
  - injection E as <-.
    rewrite (toast_unmounted_no_timers s Hr Hm). auto 10.
  - destruct (step s e) as [s1|] eqn:E1; [|discriminate].
    destruct (toast_unmounted_step s e s1 Hr Hm E1) as (He & Hm1 & Hl & Hv & Hp & Ht).
    destruct (IH s1 s' (reach_step s e s1 Hr E1) Hm1 E) as (Hes & Hl' & Hv' & Hp' & Ht' & Htm).
    split; [constructor; assumption|].
    repeat split; congruence.
Qed.

End ToastUnmounted.

(** X6.  Once a toast is unmounted nothing of it goes on: whatever events
    follow, only the passage of time is accepted, no callback is called, the
    visibility state and the transition stay as they were, and no timer is
    pending. *)
Theorem toast_inert_after_unmount s s1 es s2 :
  Toast.reachable s -> Toast.step s Toast.Unmount = Some s1 ->
  Toast.run s1 es = Some s2 ->
  Forall (fun e => exists dt, e = Toast.Advance dt) es
  /\ Toast.log s2 = Toast.log s
  /\ Toast._visible s2 = Toast._visible s
  /\ Toast.timers s2 = ∅
  /\ Transition.nextCallback (Toast.transition s2) = None.
Proof.
  intros Hr E Hrun.
  pose proof (Toast.reach_step s _ s1 Hr E) as Hr1.
  assert (Toast.mounted s1 = false /\ Toast.log s1 = Toast.log s
          /\ Toast._visible s1 = Toast._visible s) as (Hm1 & Hl1 & Hv1).
  { simpl in E. destruct (Toast.mounted s); [|discriminate]. injection E as <-.
    destruct (Toast.timeout_current s); auto. }
  destruct (toast_unmounted_run es s1 s2 Hr1 Hm1 Hrun) as (Hes & Hl & Hv & _ & Ht & Htm).
  split; [exact Hes|]. split; [congruence|]. split; [congruence|].
  split; [exact Htm|].
  rewrite Ht. exact (toast_unmounted_no_callback s1 Hr1 Hm1).
Qed.

(** The visible sample toast is unmounted and six seconds pass. *)
Lemma toast_inert_witness :
  exists s1 s2,
    Toast.step toast_shown Toast.Unmount = Some s1
    /\ Toast.run s1 [Toast.Advance 6000] = Some s2
    /\ Toast.log s2 = Toast.log toast_shown
    /\ Toast.timers s2 = ∅.
Proof.
  eexists. eexists. split; [reflexivity|]. split; [reflexivity|].
  refine ((fun H => conj (proj1 (proj2 H)) (proj1 (proj2 (proj2 (proj2 H)))))
            (toast_inert_after_unmount toast_shown _ [Toast.Advance 6000] _ _ _ _)).
  - apply Toast.reach_mount.
  - reflexivity.
  - reflexivity.
Defined.

(** ** Every onClose has its onShow *)

(** In the log of [s], [onClose = g] has been called at most as often as
    [onShow = f], and while the toast is rendered one call of [f] is still
    unanswered. *)
Definition toast_balanced (f g : callback) (s : Toast.state) : Prop :=
  (calls_of g (Toast.log s) + (if Toast.rendered s then 1 else 0)
   <= calls_of f (Toast.log s))%nat.

Section ToastBalance.

Import Toast.

Lemma calls_of_app f l1 l2 :
  calls_of f (l1 ++ l2) = (calls_of f l1 + calls_of f l2)%nat.
Proof.
  induction l1 as [|[f' a] l1 IH]; simpl; [reflexivity|]. rewrite IH. lia.
Qed.

Lemma calls_of_one f f' a :
  calls_of f [Call f' a] = if bool_decide (f' = f) then 1%nat else 0%nat.
Proof. simpl. destruct (bool_decide (f' = f)); reflexivity. Qed.

Lemma toast_commit_rendered s :
  (log (commit s) = log s /\ (rendered (commit s) = true -> rendered s = true))
  \/ (rendered (commit s) = true /\ log (commit s) = log s ++ onEnter (props s)).
Proof.
  destruct s as [p v tc tm nid [x nc] lg nw mt]. unfold commit, rendered; simpl.
  destruct v, x; simpl; rewrite ?app_nil_r; auto.
Qed.

Lemma toast_commit_balanced f g s :
  f <> g -> onShow (props s) = Some f ->
  toast_balanced f g s -> toast_balanced f g (commit s).
Proof.
  intros Hne Hf Hb. unfold toast_balanced in *.
  destruct (toast_commit_rendered s) as [(Hl & Hr) | (Hr & Hl)].
  - rewrite Hl. destruct (rendered (commit s)); [rewrite (Hr eq_refl) in Hb|];
      destruct (rendered s); lia.
  - rewrite Hl, Hr. unfold onEnter. rewrite Hf, !calls_of_app, !calls_of_one.
    rewrite (bool_decide_eq_true_2 (f = f)) by reflexivity.
    rewrite (bool_decide_eq_false_2 (f = g)) by exact Hne.
    destruct (rendered s); lia.
Qed.

Lemma toast_setVisible_balanced f g b s :
  f <> g -> onShow (props s) = Some f ->
  toast_balanced f g s -> toast_balanced f g (setVisible b s).
Proof.
  intros Hne Hf Hb. unfold setVisible. destruct (mounted s); [|exact Hb].
  case_bool_decide; [exact Hb|].
  match goal with |- context [commit ?x] => set (s1 := x) end.
  pose proof (toast_commit_balanced f g s1 Hne Hf Hb) as Hb1.
  destruct (toast_autohide_log (props s) (commit s1)) as (Hl & Ht).
  unfold toast_balanced, rendered in *. rewrite Hl, Ht. exact Hb1.
Qed.

Lemma toast_balanced_step f g s e s' :
  f <> g -> onShow (props s) = Some f -> onClose (props s) = Some g ->
  toast_keeps_callbacks f g e -> toast_balanced f g s -> step s e = Some s' ->
  onShow (props s') = Some f /\ onClose (props s') = Some g
  /\ toast_balanced f g s'.
Proof.
  intros Hne Hf Hg He Hb E. destruct e; simpl in E.
  - destruct (mounted s); [|discriminate]. injection E as <-.
    destruct He as [Hf' Hg'].
    destruct (toast_commit_fields (set_props p s)) as (Hp & _).
    assert (toast_balanced f g (commit (set_props p s))) as Hb1
      by (apply toast_commit_balanced; [exact Hne | exact Hf' | exact Hb]).
    case_bool_decide.
    + rewrite Hp. auto.
    + destruct (toast_setVisible_log (visible_of p) (commit (set_props p s)))
        as (Hp' & _).
      rewrite Hp', Hp. split; [exact Hf'|]. split; [exact Hg'|].
      apply toast_setVisible_balanced; [exact Hne | rewrite Hp; exact Hf' | exact Hb1].
  - destruct (mounted s && rendered s); [|discriminate]. injection E as <-.
    destruct (toast_setVisible_log false s) as (Hp & _). rewrite Hp.
    split; [exact Hf|]. split; [exact Hg|].
    apply toast_setVisible_balanced; assumption.
  - destruct (mounted s && rendered s); [|discriminate]. injection E as <-.
    destruct (toast_mouseenter_cases s) as [[_ ->] | [_ ->]]; [|auto].
    destruct (timeout_current s); auto.
  - destruct (mounted s && rendered s); [|discriminate]. injection E as <-. auto.
  - destruct (timers s !! id) as [td|]; [|discriminate].
    destruct (due td (now s)); [|discriminate]. injection E as <-.
    destruct (toast_setVisible_log false (set_timers (delete id (timers s)) s))
      as (Hp & _).
    rewrite Hp. split; [exact Hf|]. split; [exact Hg|].
    apply toast_setVisible_balanced; assumption.
  - destruct s as [p v tc tm nid [x nc] lg nw mt]. unfold Transition.finish in E.
    simpl in *. destruct nc as [d|]; [|discriminate].
    destruct (d <=? nw); [|discriminate].
    unfold toast_balanced, rendered in *; simpl in *.
    destruct x; try discriminate E; injection E as <-; simpl.
    + rewrite app_nil_r. auto.
    + unfold onExited. rewrite Hg. simpl.
      rewrite !calls_of_app, !calls_of_one.
      rewrite (bool_decide_eq_true_2 (g = g)) by reflexivity.
      rewrite (bool_decide_eq_false_2 (g = f)) by congruence.
      split; [exact Hf|]. split; [reflexivity|]. cbn.
      change (negb (bool_decide (Transition.EXITING = Transition.UNMOUNTED)))
        with true in Hb.
      cbn in Hb. lia.
  - destruct (0 <=? dt); [|discriminate]. injection E as <-. auto.
  - destruct (mounted s); [|discriminate]. injection E as <-.
    destruct (timeout_current s); auto.
Qed.

Lemma toast_balanced_run f g es : forall s s',
  f <> g -> onShow (props s) = Some f -> onClose (props s) = Some g ->
  Forall (toast_keeps_callbacks f g) es -> toast_balanced f g s ->
  run s es = Some s' -> toast_balanced f g s'.
Proof.
  induction es as [|e es IH]; intros s s' Hne Hf Hg He Hb E; simpl in E.
  - injection E as <-. exact Hb.
  - destruct (step s e) as [s1|] eqn:E1; [|discriminate].
    apply Forall_cons in He as [He1 He].
    destruct (toast_balanced_step f g s e s1 Hne Hf Hg He1 Hb E1) as (Hf1 & Hg1 & Hb1).
    exact (IH s1 s' Hne Hf1 Hg1 He Hb1 E).
Qed.

End ToastBalance.

(** X7.  With [onShow] and [onClose] fixed to two different functions for the
    life of a toast, [onClose] is never called more often than [onShow]; and
    whenever the toast is rendered, [onShow] has been called strictly more
    often than [onClose]: every rendered toast has announced itself. *)
Theorem toast_onClose_never_outnumbers_onShow f g p t0 es s :
  f <> g -> Toast.onShow p = Some f -> Toast.onClose p = Some g ->
  Forall (toast_keeps_callbacks f g) es ->
  Toast.run (Toast.mount p t0) es = Some s ->
  (calls_of g (Toast.log s) <= calls_of f (Toast.log s))%nat
  /\ (Toast.rendered s = true ->
      (calls_of g (Toast.log s) < calls_of f (Toast.log s))%nat).
Proof.
  intros Hne Hf Hg He E.
  assert (toast_balanced f g (Toast.mount p t0)
          /\ Toast.props (Toast.mount p t0) = p) as [Hb0 Hp0].
  { unfold Toast.mount.
    match goal with |- context [Toast._autohide p ?x] => set (s0 := x) end.
    destruct (toast_autohide_fields p s0) as (Hp & _).
    destruct (toast_autohide_log p s0) as (Hl & Ht).
    destruct (toast_setVisible_log (Toast.visible_of p) (Toast._autohide p s0))
      as (Hp' & _).
    split; [|rewrite Hp', Hp; reflexivity].
    apply toast_setVisible_balanced; [exact Hne | rewrite Hp; exact Hf |].
    unfold toast_balanced, Toast.rendered. rewrite Hl, Ht. simpl. lia. }
  assert (toast_balanced f g s) as Hb.
  { apply (toast_balanced_run f g es (Toast.mount p t0) s); auto;
      rewrite Hp0; assumption. }
  unfold toast_balanced in Hb.
  split; [lia|]. intros Hr. rewrite Hr in Hb. lia.
Qed.

(** The sample toast is shown, closed and left alone until it is gone. *)
Lemma toast_balance_witness :
  exists s,
    Toast.run (Toast.mount toast_demo 0)
      [Toast.SetProps (Toast.with_visible true toast_demo); Toast.Close;
       Toast.Advance 250; Toast.TransitionEnd] = Some s
    /\ (calls_of 2%nat (Toast.log s) <= calls_of 1%nat (Toast.log s))%nat.
Proof.
  eexists. split; [vm_compute; reflexivity|].
  refine (proj1 (toast_onClose_never_outnumbers_onShow 1%nat 2%nat toast_demo 0
                   [Toast.SetProps (Toast.with_visible true toast_demo); Toast.Close;
                    Toast.Advance 250; Toast.TransitionEnd] _ _ _ _ _ _)).
  - discriminate.
  - reflexivity.
  - reflexivity.
  - repeat constructor.
  - vm_compute. reflexivity.
Defined.

(** ** An alert without a close button *)

Section AlertControlled.

Import Alert.

Lemma alert_controlled_step s e s' :
  dismissible_of (props s) = false -> alert_not_dismissible e ->
  _visible s = visible_of (props s) -> step s e = Some s' ->
  dismissible_of (props s') = false /\ _visible s' = visible_of (props s').
Proof.
  intros Hd He Hv E. destruct e; simpl in E.
  - destruct (mounted s) eqn:Hm; [|discriminate]. injection E as <-.
    destruct (alert_commit_fields (set_props p s)) as (Hp & Hv' & _ & Hm').
    simpl in He. case_bool_decide as Hb.
    + rewrite Hp, Hv'. simpl. split; [exact He | congruence].
    + destruct (alert_setVisible_fields (visible_of p) (commit (set_props p s)))
        as (Hp1 & _ & Ht & _).
      rewrite Hp1, Hp. simpl. split; [exact He|].
      apply Ht. rewrite Hm'. exact Hm.
  - rewrite Hd, andb_false_r in E. discriminate.
  - destruct (Transition.finish _ _ _) as [[t cs]|]; [|discriminate].
    injection E as <-. auto.
  - destruct (0 <=? dt); [|discriminate]. injection E as <-. auto.
  - destruct (mounted s); [|discriminate]. injection E as <-. auto.
Qed.

Lemma alert_controlled_run es : forall s s',
  dismissible_of (props s) = false -> Forall alert_not_dismissible es ->
  _visible s = visible_of (props s) -> run s es = Some s' ->
  dismissible_of (props s') = false /\ _visible s' = visible_of (props s').
Proof.
  induction es as [|e es IH]; intros s s' Hd He Hv E; simpl in E.
  - injection E as <-. auto.
  - destruct (step s e) as [s1|] eqn:E1; [|discriminate].
    apply Forall_cons in He as [He1 He].
    destruct (alert_controlled_step s e s1 Hd He1 Hv E1) as [Hd1 Hv1].
    exact (IH s1 s' Hd1 He Hv1 E).
Qed.

End AlertControlled.

(** X8.  An alert that is never given [dismissible] is fully controlled by
    its parent: in every state it reaches, the local visibility state equals
    the [visible] prop (with its default), and the close action is refused. *)
Theorem alert_without_close_button_follows_prop p t0 es s :
  Alert.dismissible_of p = false -> Forall alert_not_dismissible es ->
  Alert.run (Alert.mount p t0) es = Some s ->
  Alert._visible s = Alert.visible_of (Alert.props s)
  /\ Alert.step s Alert.Close = None.
Proof.
  intros Hd He E.
  assert (Alert.props (Alert.mount p t0) = p
          /\ Alert._visible (Alert.mount p t0) = Alert.visible_of p) as [Hp0 Hv0].
  { unfold Alert.mount.
    match goal with |- context [Alert.setVisible _ ?x] => set (s0 := x) end.
    destruct (alert_setVisible_fields (Alert.visible_of p) s0) as (Hp & _ & Ht & _).
    rewrite Hp, (Ht eq_refl). auto. }
  destruct (alert_controlled_run es (Alert.mount p t0) s) as [Hd' Hv'];
    [rewrite Hp0; exact Hd | exact He | rewrite Hp0; exact Hv0 | exact E |].
  split; [exact Hv'|].
  simpl. rewrite Hd', andb_false_r. reflexivity.
Qed.

(** The plain alert, hidden by its parent and left until it is gone. *)
Lemma alert_without_close_button_witness :
  exists s,
    Alert.run (Alert.mount alert_plain 0)
      [Alert.SetProps (Alert.with_visible false alert_plain);
       Alert.Advance 150; Alert.TransitionEnd] = Some s
    /\ Alert._visible s = Alert.visible_of (Alert.props s).
Proof.
  eexists. split; [vm_compute; reflexivity|].
  refine (proj1 (alert_without_close_button_follows_prop alert_plain 0
                   [Alert.SetProps (Alert.with_visible false alert_plain);
                    Alert.Advance 150; Alert.TransitionEnd] _ _ _ _)).
  - reflexivity.
  - repeat constructor.
  - vm_compute. reflexivity.
Defined.

(** ** What is on screen *)

(** X9.  In every state a toast reaches: while its local state is visible
    its root element is rendered; and while the [visible] prop is false (or
    omitted) the local state is hidden and [Transition] is neither entering
    nor entered, so the root, where it is rendered, does not carry the class
    [show]. *)
Theorem toast_on_screen_matches_state s ref :
  Toast.reachable s ->
  (Toast._visible s = true ->
   exists e, Toast.render (Toast.props s) ref
               (Transition.st (Toast.transition s)) = Some e)
  /\ (Toast.visible_of (Toast.props s) = false ->
      Toast._visible s = false
      /\ Transition.active (Transition.st (Toast.transition s)) = false
      /\ Toast.getTransitionClass (Transition.st (Toast.transition s)) <> "show").
Proof.
  intros Hr.
  pose proof (toast_reachable_consistent s Hr) as Hc.
  pose proof (toast_reachable_tracks s Hr) as Ht.
  unfold toast_consistent, follows, toast_tracks_prop in *.
  split.
  - intros Hv. rewrite Hv in Hc. unfold Toast.render.
    destruct (Transition.st (Toast.transition s)); try discriminate Hc;
      try contradiction; simpl; eauto.
  - intros Hp. destruct (Toast._visible s) eqn:Hv.
    + rewrite (Ht eq_refl) in Hp. discriminate.
    + split; [reflexivity|].
      destruct (Transition.st (Toast.transition s)); try discriminate Hc;
        try contradiction; split; try reflexivity; discriminate.
Qed.

(** The sample toast mounted visible is rendered. *)
Lemma toast_on_screen_witness :
  exists e,
    Toast.render (Toast.props toast_shown) None
      (Transition.st (Toast.transition toast_shown)) = Some e.
Proof.
  refine (proj1 (toast_on_screen_matches_state toast_shown None _) _).
  - apply Toast.reach_mount.
  - reflexivity.
Defined.

(** X10.  In every state an alert reaches: while its local state is visible
    its root element is rendered; and while the [visible] prop is false the
    alert is not visible: it is unmounted or on its way out. *)
Theorem alert_on_screen_matches_state s ref :
  Alert.reachable s ->
  (Alert._visible s = true ->
   exists e, Alert.render (Alert.props s) ref
               (Transition.st (Alert.transition s)) = Some e)
  /\ (Alert.visible_of (Alert.props s) = false ->
      Alert._visible s = false
      /\ (Transition.st (Alert.transition s) = Transition.EXITING
          \/ Transition.st (Alert.transition s) = Transition.UNMOUNTED)).
Proof.
  intros Hr.
  pose proof (alert_reachable_consistent s Hr) as Hc.
  pose proof (alert_reachable_tracks s Hr) as Ht.
  unfold alert_consistent, follows, alert_tracks_prop in *.
  split.
  - intros Hv. rewrite Hv in Hc. unfold Alert.render.
    destruct (Transition.st (Alert.transition s)); try discriminate Hc;
      try contradiction; simpl; eauto.
  - intros Hp. destruct (Alert._visible s) eqn:Hv.
    + rewrite (Ht eq_refl) in Hp. discriminate.
    + split; [reflexivity|].
      destruct (Transition.st (Alert.transition s)); try discriminate Hc;
        try contradiction; auto.
Qed.

(** The sample alert is rendered right after its mount. *)
Lemma alert_on_screen_witness :
  exists e,
    Alert.render (Alert.props alert_shown) None
      (Transition.st (Alert.transition alert_shown)) = Some e.
Proof.
  refine (proj1 (alert_on_screen_matches_state alert_shown None _) _).
  - apply Alert.reach_mount.
  - reflexivity.
Defined.

(** ** The root element *)

Section RootElement.

Lemma assign_lookup_eq (a : string) (o : option value) (m : gmap string value) :
  assign a o m !! a = o.
Proof.
  destruct o as [x|]; simpl; [apply lookup_insert_eq | apply lookup_delete_eq].
Qed.

End RootElement.

(** X11.  Whatever the caller passes through, the root of a rendered toast is
    a [div] that carries the forwarded ref, the children and the class list the
    component computes, and no key: the [key] the caller writes stays with
    React, and [key={key}] passes undefined.  [role], [aria-live] and
    [aria-atomic] have their defaults unless the caller supplies attributes of
    these names, which then replace them. *)
Theorem toast_root_element p ref st e :
  Toast.render p ref st = Some e ->
  tag e = "div" /\ eref e = ref /\ ekey e = None
  /\ echildren e = Toast.children p
  /\ eprops e !! "className"
     = Some (VStr (ClassNames.classNames
                     [ClassNames.Str (Toast._className p);
                      ClassNames.Str (Toast.getTransitionClass st)]))
  /\ eprops e !! "role" = Some (default (VStr "alert") (Toast.rest p !! "role"))
  /\ eprops e !! "aria-live"
     = Some (default (VStr "assertive") (Toast.rest p !! "aria-live"))
  /\ eprops e !! "aria-atomic"
     = Some (default (VStr "true") (Toast.rest p !! "aria-atomic")).
Proof.
  unfold Toast.render. case_bool_decide; [discriminate|]. intros [= <-].
  unfold createElement; simpl.
  split; [reflexivity|]. split; [apply assign_lookup_eq|].
  split.
  { repeat first [ rewrite assign_lookup_ne by discriminate
                 | rewrite lookup_delete_ne by discriminate ].
    first [apply assign_lookup_eq | apply lookup_delete_eq]. }
  split; [reflexivity|].
  repeat first [ rewrite lookup_delete_ne by discriminate
               | rewrite assign_lookup_ne by discriminate ].
  split.
  - rewrite lookup_union_r.
    + apply lookup_insert_eq.
    + apply lookup_foldr_delete. unfold Toast.destructured. set_solver.
  - rewrite !lookup_union. repeat split.
    + destruct (Toast.rest p !! "role"); reflexivity.
    + destruct (Toast.rest p !! "aria-live"); reflexivity.
    + destruct (Toast.rest p !! "aria-atomic"); reflexivity.
Qed.

(** The sample toast while entered. *)
Lemma toast_root_element_witness :
  exists e,
    Toast.render toast_demo (Some (VRef 4)) Transition.ENTERED = Some e
    /\ eref e = Some (VRef 4)
    /\ eprops e !! "className" = Some (VStr "toast fade bg-info border-0 show").
Proof.
  eexists. split; [reflexivity|].
  refine ((fun H => conj (proj1 (proj2 H)) (proj1 (proj2 (proj2 (proj2 (proj2 H))))))
            (toast_root_element toast_demo (Some (VRef 4)) Transition.ENTERED _ _)).
  reflexivity.
Defined.

(** X12.  The root of a rendered alert is a [div] that carries the forwarded
    ref and the class list the component computes, whatever the caller passes
    through; its children are the alert's children, followed by the close
    button exactly when [dismissible] is set; [role] is [alert] unless the
    caller supplies a [role] attribute, which then replaces it. *)
Theorem alert_root_element p ref st e :
  Alert.render p ref st = Some e ->
  tag e = "div" /\ eref e = ref
  /\ echildren e
     = Alert.children p ++ (if Alert.dismissible_of p then [CCloseButton] else [])
  /\ (CCloseButton ∈ echildren e ->
      Alert.dismissible_of p = true \/ CCloseButton ∈ Alert.children p)
  /\ eprops e !! "className"
     = Some (VStr (ClassNames.classNames
                     [ClassNames.Str (Alert._className p);
                      Alert.getTransitionClass st]))
  /\ eprops e !! "role" = Some (default (VStr "alert") (Alert.rest p !! "role")).
Proof.
  unfold Alert.render. case_bool_decide; [discriminate|]. intros [= <-].
  unfold createElement; simpl.
  split; [reflexivity|]. split; [apply assign_lookup_eq|].
  split; [reflexivity|].
  split.
  { intros Hin. apply elem_of_app in Hin as [Hin|Hin]; [auto|].
    destruct (Alert.dismissible_of p); [auto|]. apply elem_of_nil in Hin. contradiction. }
  rewrite !lookup_delete_ne, !assign_lookup_ne by discriminate.
  split.
  - rewrite lookup_union_r.
    + apply lookup_insert_eq.
    + apply lookup_foldr_delete. unfold Alert.destructured. set_solver.
  - rewrite !lookup_union.
    destruct (Alert.rest p !! "role"); reflexivity.
Qed.

(** The plain alert: solid, with a class of its own and a role of its own. *)
Lemma alert_root_element_witness :
  exists e,
    Alert.render alert_plain None Transition.ENTERED = Some e
    /\ echildren e = [Text "Saved"]
    /\ eprops e !! "className" = Some (VStr "alert bg-danger text-white mb-0 show")
    /\ eprops e !! "role" = Some (VStr "status").
Proof.
  eexists. split; [reflexivity|].
  refine ((fun H => conj (proj1 (proj2 (proj2 H)))
                     (conj (proj1 (proj2 (proj2 (proj2 (proj2 H)))))
                           (proj2 (proj2 (proj2 (proj2 (proj2 H)))))))
            (alert_root_element alert_plain None Transition.ENTERED _ _)).
  reflexivity.
Defined.

(** ** A dismissal that is interrupted *)

Section Interrupted.

Lemma toast_run_cons s e s' es :
  Toast.step s e = Some s' -> Toast.run s (e :: es) = Toast.run s' es.
Proof. intros E. cbn [Toast.run]. rewrite E. reflexivity. Qed.

Lemma alert_run_cons s e s' es :
  Alert.step s e = Some s' -> Alert.run s (e :: es) = Alert.run s' es.
Proof. intros E. cbn [Alert.run]. rewrite E. reflexivity. Qed.

Lemma alert_advance_fields s dt sA :
  Alert.step s (Alert.Advance dt) = Some sA ->
  Alert.props sA = Alert.props s /\ Alert._visible sA = Alert._visible s
  /\ Alert.transition sA = Alert.transition s /\ Alert.log sA = Alert.log s
  /\ Alert.mounted sA = Alert.mounted s /\ Alert.now sA = Alert.now s + dt.
Proof.
  simpl. destruct (0 <=? dt); [|discriminate]. intros [= <-].
  repeat split; reflexivity.
Qed.

Lemma alert_enter_completes s d dt :
  Alert.transition s = {| Transition.st := Transition.ENTERING;
                          Transition.nextCallback := Some d |} ->
  0 <= dt -> d <= Alert.now s + dt ->
  exists s2, Alert.run s [Alert.Advance dt; Alert.TransitionEnd] = Some s2
    /\ Transition.st (Alert.transition s2) = Transition.ENTERED
    /\ Alert.log s2 = Alert.log s
    /\ Alert._visible s2 = Alert._visible s.
Proof.
  intros Ht H0 Hd.
  destruct s as [p v t lg nw mt]; simpl in *; subst t.
  unfold Alert.run, Alert.step; simpl.
  destruct (Z.leb_spec 0 dt) as [_|?]; [|lia]. simpl.
  unfold Transition.finish; simpl.
  destruct (Z.leb_spec d (nw + dt)) as [_|?]; [|lia]. simpl.
  eexists; repeat split; simpl. rewrite app_nil_r. reflexivity.
Qed.

End Interrupted.

(** X13.  When the parent hides a visible toast and shows it again before the
    exit transition has ended, the toast is entering again, [onShow] has been
    called once more and [onClose] has not been called; the enter transition
    then completes without any call.  The dismissal leaves no trace in the
    log but the second [onShow]. *)
Theorem toast_reshown_during_exit s f g dt :
  Toast.reachable s -> Toast.mounted s = true -> Toast._visible s = true ->
  Toast.visible_of (Toast.props s) = true ->
  Toast.onShow (Toast.props s) = Some f -> Toast.onClose (Toast.props s) = Some g ->
  0 <= dt ->
  exists s3,
    Toast.run s [Toast.SetProps (Toast.with_visible false (Toast.props s));
                 Toast.Advance dt;
                 Toast.SetProps (Toast.with_visible true (Toast.props s))] = Some s3
    /\ Toast._visible s3 = true
    /\ Transition.st (Toast.transition s3) = Transition.ENTERING
    /\ Toast.log s3 = Toast.log s ++ [Call f (Toast.index_arg (Toast.props s))]
    /\ forall dt', 250 <= dt' ->
         exists s4,
           Toast.run s3 [Toast.Advance dt'; Toast.TransitionEnd] = Some s4
           /\ Transition.st (Toast.transition s4) = Transition.ENTERED
           /\ Toast.log s4 = Toast.log s3.
Proof.
  intros Hr Hm Hv Hp Hf Hg H0.
  pose proof (toast_reachable_consistent s Hr) as Hc.
  set (p0 := Toast.with_visible false (Toast.props s)).
  set (p1 := Toast.with_visible true (Toast.props s)).
  set (s1 := Toast.setVisible false (Toast.set_props p0 s)).
  assert (Toast.step s (Toast.SetProps p0) = Some s1) as E1.
  { rewrite (toast_step_SetProps s p0 Hc Hm).
    rewrite bool_decide_eq_false_2 by (rewrite Hp; discriminate). reflexivity. }
  destruct (toast_setVisible_false (Toast.set_props p0 s) Hm Hv Hc)
    as (Hv1 & Ht1 & Hl1 & Hn1 & Hp1 & Hm1).
  fold s1 in Hv1, Ht1, Hl1, Hn1, Hp1, Hm1.
  assert (exists s2, Toast.step s1 (Toast.Advance dt) = Some s2) as [s2 E2].
  { simpl. destruct (Z.leb_spec 0 dt); [eauto | lia]. }
  destruct (toast_advance_fields _ _ _ E2)
    as (Hp2 & Hv2 & _ & _ & Ht2 & Hl2 & Hm2 & Hn2).
  pose proof (Toast.reach_step _ _ _ (Toast.reach_step _ _ _ Hr E1) E2) as Hr2.
  pose proof (toast_reachable_consistent s2 Hr2) as Hc2.
  assert (Toast.mounted s2 = true) as Hm2' by congruence.
  assert (Toast._visible s2 = false) as Hv2' by congruence.
  set (s3 := Toast.setVisible true (Toast.set_props p1 s2)).
  assert (Toast.step s2 (Toast.SetProps p1) = Some s3) as E3.
  { rewrite (toast_step_SetProps s2 p1 Hc2 Hm2').
    rewrite bool_decide_eq_false_2; [reflexivity|].
    rewrite Hp2, Hp1. discriminate. }
  destruct (toast_setVisible_true (Toast.set_props p1 s2) Hm2' Hv2' Hc2)
    as (Hv3 & Ht3 & Hl3 & Hn3 & _).
  fold s3 in Hv3, Ht3, Hl3, Hn3.
  exists s3. split.
  { rewrite (toast_run_cons _ _ _ _ E1), (toast_run_cons _ _ _ _ E2),
      (toast_run_cons _ _ _ _ E3). reflexivity. }
  split; [exact Hv3|]. split; [rewrite Ht3; reflexivity|].
  split.
  { rewrite Hl3. simpl. rewrite Hl2, Hl1. simpl.
    unfold Toast.onEnter. simpl. rewrite Hf. reflexivity. }
  intros dt' Hdt'.
  destruct (toast_enter_completes s3 _ dt' Ht3) as (s4 & Hrun & Hs4 & Hl4 & _);
    [lia | rewrite Hn3; simpl; lia |].
  exists s4. auto.
Qed.

(** The visible sample toast, hidden and shown again 100 ms later. *)
Lemma toast_reshown_witness :
  exists s3,
    Toast.run toast_shown
      [Toast.SetProps (Toast.with_visible false (Toast.props toast_shown));
       Toast.Advance 100;
       Toast.SetProps (Toast.with_visible true (Toast.props toast_shown))] = Some s3
    /\ Toast.log s3 = Toast.log toast_shown ++ [Call 1%nat (ANum 3)].
Proof.
  destruct (toast_reshown_during_exit toast_shown 1%nat 2%nat 100)
    as (s3 & H1 & _ & _ & H2 & _).
  - apply Toast.reach_mount.
  - reflexivity.
  - reflexivity.
  - reflexivity.
  - reflexivity.
  - reflexivity.
  - lia.
  - exists s3. split; [exact H1 | exact H2].
Defined.

(** X14.  When the parent hides a visible alert and shows it again before the
    exit transition has ended, [onClose] has been called (it fires as the exit
    starts) although the alert is entering again and ends up entered and
    rendered; showing it again calls nothing. *)
Theorem alert_reshown_during_exit s f dt :
  Alert.reachable s -> Alert.mounted s = true -> Alert._visible s = true ->
  Alert.visible_of (Alert.props s) = true ->
  Alert.onClose (Alert.props s) = Some f ->
  0 <= dt ->
  exists s3,
    Alert.run s [Alert.SetProps (Alert.with_visible false (Alert.props s));
                 Alert.Advance dt;
                 Alert.SetProps (Alert.with_visible true (Alert.props s))] = Some s3
    /\ Alert._visible s3 = true
    /\ Transition.st (Alert.transition s3) = Transition.ENTERING
    /\ Alert.log s3 = Alert.log s ++ [Call f ANode]
    /\ forall dt', 150 <= dt' ->
         exists s4,
           Alert.run s3 [Alert.Advance dt'; Alert.TransitionEnd] = Some s4
           /\ Transition.st (Alert.transition s4) = Transition.ENTERED
           /\ Alert._visible s4 = true
           /\ Alert.log s4 = Alert.log s3.
Proof.
  intros Hr Hm Hv Hp Hf H0.
  pose proof (alert_reachable_consistent s Hr) as Hc.
  set (p0 := Alert.with_visible false (Alert.props s)).
  set (p1 := Alert.with_visible true (Alert.props s)).
  set (s1 := Alert.setVisible false (Alert.set_props p0 s)).
  assert (Alert.step s (Alert.SetProps p0) = Some s1) as E1.
  { rewrite (alert_step_SetProps s p0 Hc Hm).
    rewrite bool_decide_eq_false_2 by (rewrite Hp; discriminate). reflexivity. }
  destruct (alert_setVisible_false (Alert.set_props p0 s) Hm Hv Hc)
    as (Hv1 & Ht1 & Hl1 & Hn1 & Hp1 & Hm1).
  fold s1 in Hv1, Ht1, Hl1, Hn1, Hp1, Hm1.
  assert (exists s2, Alert.step s1 (Alert.Advance dt) = Some s2) as [s2 E2].
  { simpl. destruct (Z.leb_spec 0 dt); [eauto | lia]. }
  destruct (alert_advance_fields _ _ _ E2) as (Hp2 & Hv2 & Ht2 & Hl2 & Hm2 & Hn2).
  pose proof (Alert.reach_step _ _ _ (Alert.reach_step _ _ _ Hr E1) E2) as Hr2.
  pose proof (alert_reachable_consistent s2 Hr2) as Hc2.
  assert (Alert.mounted s2 = true) as Hm2' by congruence.
  assert (Alert._visible s2 = false) as Hv2' by congruence.
  set (s3 := Alert.setVisible true (Alert.set_props p1 s2)).
  assert (Alert.step s2 (Alert.SetProps p1) = Some s3) as E3.
  { rewrite (alert_step_SetProps s2 p1 Hc2 Hm2').
    rewrite bool_decide_eq_false_2; [reflexivity|].
    rewrite Hp2, Hp1. discriminate. }
  destruct (alert_setVisible_true (Alert.set_props p1 s2) Hm2' Hv2' Hc2)
    as (Hv3 & Ht3 & Hl3 & Hn3 & _).
  fold s3 in Hv3, Ht3, Hl3, Hn3.
  exists s3. split.
  { rewrite (alert_run_cons _ _ _ _ E1), (alert_run_cons _ _ _ _ E2),
      (alert_run_cons _ _ _ _ E3). reflexivity. }
  split; [exact Hv3|]. split; [rewrite Ht3; reflexivity|].
  split.
  { rewrite Hl3. simpl. rewrite Hl2, Hl1. simpl. rewrite Hf. reflexivity. }
  intros dt' Hdt'.
  destruct (alert_enter_completes s3 _ dt' Ht3) as (s4 & Hrun & Hs4 & Hl4 & Hv4);
    [lia | rewrite Hn3; simpl; lia |].
  exists s4. repeat split; [exact Hrun | exact Hs4 | congruence | exact Hl4].
Qed.

(** The sample alert, hidden and shown again 50 ms later. *)
Lemma alert_reshown_witness :
  exists s3,
    Alert.run alert_shown
      [Alert.SetProps (Alert.with_visible false (Alert.props alert_shown));
       Alert.Advance 50;
       Alert.SetProps (Alert.with_visible true (Alert.props alert_shown))] = Some s3
    /\ Alert._visible s3 = true
    /\ Alert.log s3 = Alert.log alert_shown ++ [Call 7%nat ANode].
Proof.
  destruct (alert_reshown_during_exit alert_shown 7%nat 50)
    as (s3 & H1 & H2 & _ & H3 & _).
  - apply Alert.reach_mount.
  - reflexivity.
  - reflexivity.
  - reflexivity.
  - reflexivity.
  - lia.
  - exists s3. split; [exact H1|]. split; [exact H2 | exact H3].
Defined.

(** ** While the exit transition runs *)

Section Leaving.

Lemma toast_exit_pending s d dt :
  Toast.transition s = {| Transition.st := Transition.EXITING;
                          Transition.nextCallback := Some d |} ->
  0 <= dt -> Toast.now s + dt < d ->
  Toast.run s [Toast.Advance dt; Toast.TransitionEnd] = None
  /\ exists sA, Toast.step s (Toast.Advance dt) = Some sA
                /\ Transition.st (Toast.transition sA) = Transition.EXITING.
Proof.
  intros Ht H0 Hd.
  destruct s as [p v tc tm nid t lg nw mt]; simpl in *; subst t.
  destruct (Z.leb_spec 0 dt) as [_|?]; [|lia]. simpl.
  unfold Transition.finish; simpl.
  destruct (Z.leb_spec d (nw + dt)) as [?|_]; [lia|]. eauto.
Qed.

Lemma alert_exit_pending s d dt :
  Alert.transition s = {| Transition.st := Transition.EXITING;
                          Transition.nextCallback := Some d |} ->
  0 <= dt -> Alert.now s + dt < d ->
  Alert.run s [Alert.Advance dt; Alert.TransitionEnd] = None
  /\ exists sA, Alert.step s (Alert.Advance dt) = Some sA
                /\ Transition.st (Alert.transition sA) = Transition.EXITING.
Proof.
  intros Ht H0 Hd.
  destruct s as [p v t lg nw mt]; simpl in *; subst t.
  destruct (Z.leb_spec 0 dt) as [_|?]; [|lia]. simpl.
  unfold Transition.finish; simpl.
  destruct (Z.leb_spec d (nw + dt)) as [?|_]; [lia|]. eauto.
Qed.

End Leaving.

(** X15.  A widget that is being dismissed stays rendered until its timeout
    has passed: for 250 ms after a close action the exit transition of a toast
    cannot end and its root keeps the transition class [showing]; for 150 ms
    after a close action the exit transition of an alert cannot end and its
    root is rendered without the class [show]. *)
Theorem dismissed_widget_stays_until_timeout :
  (forall s e dt,
     Toast.reachable s -> Toast.mounted s = true -> Toast._visible s = true ->
     toast_close_action s e -> 0 <= dt < 250 ->
     exists s1 sA,
       Toast.step s e = Some s1
       /\ Toast.run s1 [Toast.Advance dt; Toast.TransitionEnd] = None
       /\ Toast.step s1 (Toast.Advance dt) = Some sA
       /\ Toast.rendered sA = true
       /\ Toast.getTransitionClass (Transition.st (Toast.transition sA)) = "showing")
  /\
  (forall s e dt,
     Alert.reachable s -> Alert.mounted s = true -> Alert._visible s = true ->
     alert_close_action s e -> 0 <= dt < 150 ->
     exists s1 sA,
       Alert.step s e = Some s1
       /\ Alert.run s1 [Alert.Advance dt; Alert.TransitionEnd] = None
       /\ Alert.step s1 (Alert.Advance dt) = Some sA
       /\ Alert.rendered sA = true
       /\ Alert.getTransitionClass (Transition.st (Alert.transition sA))
          = ClassNames.Falsy).
Proof.
  split.
  - intros s e dt Hr Hm Hv Ha Hdt.
    pose proof (toast_reachable_consistent s Hr) as Hc.
    assert (forall s0, Toast.mounted s0 = true -> Toast._visible s0 = true ->
              toast_consistent s0 -> Toast.now s0 = Toast.now s ->
              exists sA,
                Toast.run (Toast.setVisible false s0)
                  [Toast.Advance dt; Toast.TransitionEnd] = None
                /\ Toast.step (Toast.setVisible false s0) (Toast.Advance dt) = Some sA
                /\ Toast.rendered sA = true
                /\ Toast.getTransitionClass (Transition.st (Toast.transition sA))
                   = "showing") as Hgen.
    { intros s0 Hm0 Hv0 Hc0 Hn0.
      destruct (toast_setVisible_false s0 Hm0 Hv0 Hc0) as (_ & Ht1 & _ & Hn1 & _).
      destruct (toast_exit_pending _ _ dt Ht1) as (Hnone & sA & HA & HstA);
        [lia | rewrite Hn1; lia |].
      exists sA. split; [exact Hnone|]. split; [exact HA|].
      unfold Toast.rendered. rewrite HstA. split; reflexivity. }
    destruct Ha as [ | id td Hid Hdue | Hp ].
    + destruct (Hgen s Hm Hv Hc eq_refl) as (sA & H1 & H2 & H3 & H4).
      exists (Toast.setVisible false s), sA. split; [|auto].
      simpl. rewrite Hm, (toast_visible_rendered s Hc Hv). reflexivity.
    + destruct (Hgen (Toast.set_timers (delete id (Toast.timers s)) s) Hm Hv Hc eq_refl)
        as (sA & H1 & H2 & H3 & H4).
      eexists. exists sA. split; [|eauto].
      simpl. rewrite Hid, Hdue. reflexivity.
    + set (p := Toast.with_visible false (Toast.props s)).
      destruct (Hgen (Toast.set_props p s) Hm Hv Hc eq_refl)
        as (sA & H1 & H2 & H3 & H4).
      eexists. exists sA. split; [|eauto].
      rewrite (toast_step_SetProps s p Hc Hm).
      rewrite bool_decide_eq_false_2; [reflexivity|]. rewrite Hp. discriminate.
  - intros s e dt Hr Hm Hv Ha Hdt.
    pose proof (alert_reachable_consistent s Hr) as Hc.
    assert (forall s0, Alert.mounted s0 = true -> Alert._visible s0 = true ->
              alert_consistent s0 -> Alert.now s0 = Alert.now s ->
              exists sA,
                Alert.run (Alert.setVisible false s0)
                  [Alert.Advance dt; Alert.TransitionEnd] = None
                /\ Alert.step (Alert.setVisible false s0) (Alert.Advance dt) = Some sA
                /\ Alert.rendered sA = true
                /\ Alert.getTransitionClass (Transition.st (Alert.transition sA))
                   = ClassNames.Falsy) as Hgen.
    { intros s0 Hm0 Hv0 Hc0 Hn0.
      destruct (alert_setVisible_false s0 Hm0 Hv0 Hc0) as (_ & Ht1 & _ & Hn1 & _).
      destruct (alert_exit_pending _ _ dt Ht1) as (Hnone & sA & HA & HstA);
        [lia | rewrite Hn1; lia |].
      exists sA. split; [exact Hnone|]. split; [exact HA|].
      unfold Alert.rendered. rewrite HstA. split; reflexivity. }
    destruct Ha as [ Hd | Hp ].
    + destruct (Hgen s Hm Hv Hc eq_refl) as (sA & H1 & H2 & H3 & H4).
      exists (Alert.setVisible false s), sA. split; [|auto].
      simpl. rewrite Hm, (alert_visible_rendered s Hc Hv), Hd. reflexivity.
    + set (p := Alert.with_visible false (Alert.props s)).
      destruct (Hgen (Alert.set_props p s) Hm Hv Hc eq_refl)
        as (sA & H1 & H2 & H3 & H4).
      eexists. exists sA. split; [|eauto].
      rewrite (alert_step_SetProps s p Hc Hm).
      rewrite bool_decide_eq_false_2; [reflexivity|]. rewrite Hp. discriminate.
Qed.

(** The sample toast 249 ms and the sample alert 149 ms after their close
    buttons were clicked. *)
Lemma dismissed_widget_stays_witness :
  (exists s1,
     Toast.step toast_shown Toast.Close = Some s1
     /\ Toast.run s1 [Toast.Advance 249; Toast.TransitionEnd] = None)
  /\ (exists s1,
        Alert.step alert_shown Alert.Close = Some s1
        /\ Alert.run s1 [Alert.Advance 149; Alert.TransitionEnd] = None).
Proof.
  split.
  - destruct (proj1 dismissed_widget_stays_until_timeout toast_shown Toast.Close 249)
      as (s1 & sA & H1 & H2 & _).
    + apply Toast.reach_mount.
    + reflexivity.
    + reflexivity.
    + apply toast_close_click.
    + lia.
    + exists s1. split; [exact H1 | exact H2].
  - destruct (proj2 dismissed_widget_stays_until_timeout alert_shown Alert.Close 149)
      as (s1 & sA & H1 & H2 & _).
    + apply Alert.reach_mount.
    + reflexivity.
    + reflexivity.
    + apply alert_close_click. reflexivity.
    + lia.
    + exists s1. split; [exact H1 | exact H2].
Defined.

(** X16.  The [onClose] call that ends a toast's exit transition is made with
    the callback and the index of the latest render, not of the render in
    which the dismissal began: props that change while the toast is leaving
    (with [visible] still false) decide what is called. *)
Theorem toast_onClose_uses_latest_props s p dt :
  Toast.reachable s -> Toast.mounted s = true ->
  Transition.st (Toast.transition s) = Transition.EXITING ->
  Transition.nextCallback (Toast.transition s) = Some (Toast.now s + dt) ->
  0 <= dt ->
  Toast.visible_of p = Toast.visible_of (Toast.props s) ->
  exists s2,
    Toast.run s [Toast.SetProps p; Toast.Advance dt; Toast.TransitionEnd] = Some s2
    /\ Transition.st (Toast.transition s2) = Transition.UNMOUNTED
    /\ Toast.log s2 = Toast.log s ++ Toast.onExited p.
Proof.
  intros Hr Hm Hst Hnc H0 Hp.
  pose proof (toast_reachable_consistent s Hr) as Hc.
  assert (Toast.step s (Toast.SetProps p) = Some (Toast.set_props p s)) as E1.
  { rewrite (toast_step_SetProps s p Hc Hm).
    rewrite bool_decide_eq_true_2 by exact Hp. reflexivity. }
  destruct (toast_exit_completes (Toast.set_props p s) (Toast.now s + dt) dt)
    as (s2 & Hrun & Hs2 & Hl2 & _).
  - simpl. destruct (Toast.transition s) as [x nc]; simpl in *. congruence.
  - exact H0.
  - simpl. lia.
  - exists s2. split; [|split; [exact Hs2 | exact Hl2]].
    rewrite (toast_run_cons _ _ _ _ E1). exact Hrun.
Qed.

(** The sample toast is closing when its parent renders it with another
    callback and index. *)
Lemma toast_onClose_latest_props_witness :
  exists s1 s2,
    Toast.step toast_shown Toast.Close = Some s1
    /\ Toast.run s1 [Toast.SetProps toast_manual; Toast.Advance 250;
                     Toast.TransitionEnd] = Some s2
    /\ Toast.log s2 = Toast.log s1 ++ [Call 2%nat ANull].
Proof.
  eexists. 
  destruct (toast_onClose_uses_latest_props
              (Toast.setVisible false toast_shown) toast_manual 250)
    as (s2 & H1 & _ & H2).
  - apply (Toast.reach_step toast_shown Toast.Close); [apply Toast.reach_mount|].
    reflexivity.
  - reflexivity.
  - reflexivity.
  - reflexivity.
  - lia.
  - reflexivity.
  - exists s2. split; [reflexivity|]. split; [exact H1 | exact H2].
Defined.
